(** * The ID Decoder tool (src/pages/IdDecoderTool.tsx)

    A shallow embedding of the composite-identifier decoder of the
    utility-tool repository, and the properties of it that the
    specification states.

    - [JS] holds the host-language primitives the component relies on:
      strings as sequences of UTF-16 code units, BigInt as [Z], Number as
      the integer-valued doubles, [String.prototype.trim], the radix
      printer of BigInt, the 32-bit shift of Numbers.
    - [IdDecoderTool] holds the component: its constants, [decode36], the
      four field getters, [encodeToBase36] and the event handler
      [decodeId], which reads and writes the component state. *)

From Stdlib Require Import ZArith List Bool Lia String Ascii.
Import ListNotations.
Local Open Scope Z_scope.

(* ================================================================== *)
(** ** Host-language primitives *)
(* ================================================================== *)

Module JS.

(** A JavaScript string is a sequence of UTF-16 code units; [charCodeAt]
    returns the unit at an index as an integer in [0, 65535]. *)
Definition jsstring := list Z.

(** ASCII literals, for the constants and the examples. *)
Definition js (s : string) : jsstring :=
  map (fun c => Z.of_N (N_of_ascii c)) (list_ascii_of_string s).

(** *** Number

    Every Number this component computes is an integer-valued double, so
    a finite Number is represented by the integer it denotes.  A BigInt
    too large for a double converts to an infinity. *)
Inductive number :=
| Finite (z : Z)
| PosInfinity
| NegInfinity
| NaN.

(** Round an integer to 53 significant bits, ties to even: the value of
    the nearest double, before the overflow test. *)
Definition round53 (z : Z) : Z :=
  let a := Z.abs z in
  if a <? 2 ^ 53 then z
  else
    let e := Z.log2 a - 52 in
    let q := a / 2 ^ e in
    let r := a mod 2 ^ e in
    let half := 2 ^ (e - 1) in
    let q' := if r <? half then q
              else if half <? r then q + 1
              else if Z.even q then q else q + 1 in
    Z.sgn z * (q' * 2 ^ e).

Definition of_exact (z : Z) : number :=
  let r := round53 z in
  if 2 ^ 1024 <=? r then PosInfinity
  else if r <=? - 2 ^ 1024 then NegInfinity
  else Finite r.

(** [Number(b)] for a BigInt [b]. *)
Definition Number (b : Z) : number := of_exact b.

(** [x + y] on Numbers: the exact sum of two integer-valued doubles,
    rounded. *)
Definition num_add (x y : number) : number :=
  match x, y with
  | Finite a, Finite b => of_exact (a + b)
  | NaN, _ | _, NaN => NaN
  | PosInfinity, NegInfinity | NegInfinity, PosInfinity => NaN
  | PosInfinity, _ | _, PosInfinity => PosInfinity
  | NegInfinity, _ | _, NegInfinity => NegInfinity
  end.

(** [- x] and [x - y] on Numbers. *)
Definition num_opp (x : number) : number :=
  match x with
  | Finite a => Finite (- a)
  | PosInfinity => NegInfinity
  | NegInfinity => PosInfinity
  | NaN => NaN
  end.

Definition num_sub (x y : number) : number := num_add x (num_opp y).

(** [x < y] on Numbers; a comparison with NaN is false. *)
Definition num_ltb (x y : number) : bool :=
  match x, y with
  | Finite a, Finite b => a <? b
  | Finite _, PosInfinity => true
  | NegInfinity, Finite _ => true
  | NegInfinity, PosInfinity => true
  | _, _ => false
  end.

(** [x > y] and [x <= y]. *)
Definition num_gtb (x y : number) : bool := num_ltb y x.

Definition num_leb (x y : number) : bool :=
  match x, y with
  | NaN, _ | _, NaN => false
  | _, _ => negb (num_ltb y x)
  end.

(** *** The 32-bit left shift of Numbers, [a << n] *)
Definition ToInt32 (z : Z) : Z :=
  let m := z mod 2 ^ 32 in
  if m <? 2 ^ 31 then m else m - 2 ^ 32.

Definition shl32 (a n : Z) : Z :=
  ToInt32 (Z.shiftl (ToInt32 a) (n mod 32)).

(** *** String.prototype.trim

    The code units removed at both ends: WhiteSpace and LineTerminator of
    the language specification. *)
Definition is_whitespace (c : Z) : bool :=
  (c =? 9) || (c =? 10) || (c =? 11) || (c =? 12) || (c =? 13) ||
  (c =? 32) || (c =? 160) || (c =? 5760) ||
  ((8192 <=? c) && (c <=? 8202)) ||
  (c =? 8232) || (c =? 8233) || (c =? 8239) || (c =? 8287) ||
  (c =? 12288) || (c =? 65279).

Fixpoint trimStart (s : jsstring) : jsstring :=
  match s with
  | [] => []
  | c :: rest => if is_whitespace c then trimStart rest else s
  end.

Definition trimEnd (s : jsstring) : jsstring := rev (trimStart (rev s)).

Definition trim (s : jsstring) : jsstring := trimEnd (trimStart s).

(** *** Case mapping

    [toLowerCase] on the code units whose image matters to the decoder.
    The letters A-Z map to a-z.  Outside ASCII exactly two characters
    have a lower-case image that contains an ASCII letter: U+212A (the
    Kelvin sign) maps to k, and U+0130 maps to i followed by U+0307.
    Every other code unit above 127 has an image above 127; the parser
    rejects it before and after the mapping alike, and the model leaves
    it in place. *)
Definition lower_unit (c : Z) : jsstring :=
  if (65 <=? c) && (c <=? 90) then [c + 32]
  else if c =? 8490 then [107]
  else if c =? 304 then [105; 775]
  else [c].

Definition toLowerCase (s : jsstring) : jsstring := flat_map lower_unit s.

(** [toUpperCase], used only on the output of [toString(36)], which is
    ASCII: a-z map to A-Z and the other ASCII units are unchanged. *)
Definition upper_unit (c : Z) : Z :=
  if (97 <=? c) && (c <=? 122) then c - 32 else c.

Definition toUpperCase (s : jsstring) : jsstring := map upper_unit s.

(** *** BigInt

    BigInt is arbitrary precision: its value is a [Z], [&] is [Z.land] and
    [>>] is [Z.shiftr] (both on the infinite two's complement form). *)

(** The test [/^\d+$/.test(s)]: one or more code units, all in 0-9. *)
Definition is_digit (c : Z) : bool := (48 <=? c) && (c <=? 57).

Definition test_digits (s : jsstring) : bool :=
  match s with
  | [] => false
  | _ => forallb is_digit s
  end.

(** [BigInt(s)] on a string of decimal digits (the only strings the
    component passes to it): the number the digits write, leading zeros
    allowed. *)
Definition BigInt_of_string (s : jsstring) : Z :=
  fold_left (fun acc c => acc * 10 + (c - 48)) s 0.

(** [BigInt.prototype.toString(radix)]: a minus sign for a negative
    value, then the digits of the magnitude, most significant first,
    with a-z for the digits 10-35. *)
Definition digit_char (d : Z) : Z := if d <? 10 then 48 + d else 87 + d.

Fixpoint to_digits (fuel : nat) (radix n : Z) (acc : jsstring) : jsstring :=
  match fuel with
  | O => acc
  | S fuel' =>
      let acc' := digit_char (n mod radix) :: acc in
      if n <? radix then acc' else to_digits fuel' radix (n / radix) acc'
  end.

(** A magnitude has no more digits in any radix than it has bits. *)
Definition magnitude_digits (radix n : Z) : jsstring :=
  to_digits (S (Z.to_nat (Z.log2 n))) radix n [].

Definition BigInt_toString (radix b : Z) : jsstring :=
  if b <? 0 then 45 :: magnitude_digits radix (- b)
  else magnitude_digits radix b.

(** [Number.prototype.toString(radix)] on the Numbers of this model: an
    integer-valued double prints as the integer it denotes. *)
Definition Number_toString (radix : Z) (x : number) : jsstring :=
  match x with
  | Finite z => BigInt_toString radix z
  | PosInfinity => js "Infinity"
  | NegInfinity => js "-Infinity"
  | NaN => js "NaN"
  end.

(** [s.padStart(targetLength, fill)] with a filler of one code unit, and
    [s.slice(0, n)]. *)
Definition padStart (targetLength : nat) (fill : Z) (s : jsstring)
  : jsstring :=
  repeat fill (targetLength - List.length s) ++ s.

Definition slice0 (n : nat) (s : jsstring) : jsstring := firstn n s.

(** [str.replace(/(\d)(?=(\d{3})+(?!\d))/g, '$1,')].  The pattern matches
    one digit that is followed by one or more groups of three digits and
    then by no digit: the digits after it, up to the first unit that is
    not a digit, are a positive multiple of three.  The look-ahead
    consumes nothing, so every unit is tested on its own, and a matched
    digit is replaced by itself and a comma. *)
Fixpoint digit_run (s : jsstring) : nat :=
  match s with
  | [] => O
  | c :: rest => if is_digit c then S (digit_run rest) else O
  end.

Definition thousands_match (c : Z) (rest : jsstring) : bool :=
  is_digit c && (0 <? digit_run rest)%nat
  && (digit_run rest mod 3 =? 0)%nat.

Fixpoint replace_thousands (s : jsstring) : jsstring :=
  match s with
  | [] => []
  | c :: rest =>
      if thousands_match c rest then c :: 44 :: replace_thousands rest
      else c :: replace_thousands rest
  end.

(** [Math.floor(x / y)] for a Number [x] and a positive integer [y]
    below 2^53.  The quotient of two finite doubles is the exact
    quotient rounded to 53 significant bits, ties to even:
    [quotient_rounded a b] is the pair [(m, e)] of that double,
    [m * 2^e], for positive integers [a] and [b] ([k] is the exponent
    of the exact quotient, found from the bit lengths and one
    comparison).  With integer operands and a divisor below 2^53 the
    quotient is neither subnormal nor infinite. *)
Definition quotient_rounded (a b : Z) : Z * Z :=
  let k0 := Z.log2 a - Z.log2 b in
  let k := if a * 2 ^ Z.max 0 (- k0) <? b * 2 ^ Z.max 0 k0
           then k0 - 1 else k0 in
  let e := k - 52 in
  let num := a * 2 ^ Z.max 0 (- e) in
  let den := b * 2 ^ Z.max 0 e in
  let q := num / den in
  let r := num mod den in
  let m := if 2 * r <? den then q
           else if den <? 2 * r then q + 1
           else if Z.even q then q else q + 1 in
  (m, e).

Definition floor_scaled (me : Z * Z) : Z :=
  let (m, e) := me in
  if 0 <=? e then m * 2 ^ e else m / 2 ^ (- e).

Definition ceil_scaled (me : Z * Z) : Z :=
  let (m, e) := me in
  if 0 <=? e then m * 2 ^ e else - ((- m) / 2 ^ (- e)).

Definition floor_quotient (x : number) (y : Z) : number :=
  match x with
  | Finite a =>
      if a =? 0 then Finite 0
      else if 0 <? a then Finite (floor_scaled (quotient_rounded a y))
      else Finite (- ceil_scaled (quotient_rounded (- a) y))
  | PosInfinity => PosInfinity
  | NegInfinity => NegInfinity
  | NaN => NaN
  end.

End JS.

(* ================================================================== *)
(** ** The component *)
(* ================================================================== *)

Module IdDecoderTool.
Import JS.

(** The time zone selector of the component. *)
Inductive timezone := japan | local.

(** interface DecodedId.  The optional [error] member is never assigned
    by the component. *)
Record DecodedId := mkDecodedId {
  originalId : jsstring;
  decimalValue : Z;
  appId : number;
  clusterId : number;
  sequence : number;
  timestamp : number;
  formattedTimestamp : jsstring;
  isValid : bool
}.

(** *** Constants from XLongGenerator (lines 23-27) *)
Definition BITS3 : Z := 40.
Definition BITS2 : Z := 14.
Definition BITS1 : Z := 2.
Definition BITS0 : Z := 7.
Definition BITS01 : Z := BITS0 + BITS1.
Definition BITS012 : Z := BITS01 + BITS2.
Definition MASK1 : Z := shl32 1 BITS1 - 1.
Definition MASK0 : Z := shl32 1 BITS0 - 1.
Definition MASK3 : Z := shl32 1 BITS3 - 1.
Definition MASK2 : Z := shl32 1 BITS2 - 1.
Definition TIMESTAMP_OFFSET : Z := 1451574000000.

(** *** decode36 (lines 30-47)

    The loop over the code units, with the accumulator [result].  Nothing
    in the body throws, so the [catch] arm is never taken. *)
Definition digit_of (char : Z) : Z :=
  if (48 <=? char) && (char <=? 57) then char - 48
  else if (65 <=? char) && (char <=? 90) then char - 55
  else if (97 <=? char) && (char <=? 122) then char - 87
  else -1.

Fixpoint decode36_loop (value : jsstring) (result : Z) : option Z :=
  match value with
  | [] => Some result
  | char :: rest =>
      let digit := digit_of char in
      if (digit =? -1) || (36 <=? digit) then None
      else decode36_loop rest (result * 36 + digit)
  end.

Definition decode36 (value : jsstring) : option Z := decode36_loop value 0.

(** *** The field getters (lines 49-63) *)
Definition getAppId (id : Z) : number := Number (Z.land id MASK0).

Definition getClusterId (id : Z) : number :=
  Number (Z.land (Z.shiftr id BITS0) MASK1).

Definition getSequence (id : Z) : number :=
  Number (Z.land (Z.shiftr id BITS01) MASK2).

Definition getTimestamp (id : Z) : number :=
  num_add (Number (Z.shiftr id BITS012)) (Finite TIMESTAMP_OFFSET).

(** *** encodeToBase36 (lines 199-201) *)
Definition encodeToBase36 (decimal : Z) : jsstring :=
  toUpperCase (BigInt_toString 36 decimal).

(** *** The host and the component state

    [decodeId] takes no argument.  It reads the text box and the time
    zone selector from the component state, reads the clock through
    [Date.now()], and formats the time stamp through the host's [Date]
    and [Intl.DateTimeFormat] objects ([formatTimestamp], lines 65-107,
    pure presentation whose result depends on the host's time zone
    data).  The host record carries these two ambient inputs.

    The host's engine also bounds the size of a BigInt: [BigInt(text)]
    throws a RangeError on a digit string whose number the engine cannot
    hold.  The bound is the engine's own: [BigInt_refuses] tells which
    numbers the engine of the host refuses to build from a text. *)
Record Host := mkEngineHost {
  Date_now : Z;
  formatTimestamp : number -> timezone -> jsstring;
  BigInt_refuses : Z -> bool
}.

(** A host whose engine holds BigInts of up to 2^30 bits. *)
Definition mkHost (now : Z) (format : number -> timezone -> jsstring)
  : Host :=
  mkEngineHost now format (fun b => 2 ^ 30 <=? Z.log2 b).

Record State := mkState {
  inputId : jsstring;
  decodedId : option DecodedId;
  error : option jsstring;
  selectedTimezone : timezone
}.

Definition setDecodedId (d : option DecodedId) (st : State) : State :=
  mkState (inputId st) d (error st) (selectedTimezone st).

Definition setError (e : option jsstring) (st : State) : State :=
  mkState (inputId st) (decodedId st) e (selectedTimezone st).

(** The messages the handler leaves. *)
Definition MSG_EMPTY : jsstring := js "Please enter an ID to decode".

(** The message of the [catch] arm (line 169). *)
Definition MSG_FAILED : jsstring :=
  js "Failed to decode ID. Please check the input format.".

Definition MSG_FORMAT : jsstring :=
  js "Invalid ID format. Please enter a valid decimal number or base-36 string".

Definition MSG_RANGE : jsstring :=
  js "ID value is out of valid 64-bit range (must be between 0 and 9,223,372,036,854,775,807)".

(** *** decodeId (lines 109-173) *)

(** Lines 118-127: the dispatch between the two parsers.  On a digit
    string it gives the number [BigInt(text)] returns when it returns;
    [parseThrows] below tells when it throws instead. *)
Definition parseInput (text : jsstring) : option Z :=
  if test_digits text then Some (BigInt_of_string text)
  else decode36 (toLowerCase text).

(** Lines 122-123: a digit string goes to [BigInt(text)], which throws
    when the engine refuses the number.  Every engine holds the 64-bit
    values ([BigInt.asUintN(64, x)] is part of the language), so a
    number below 2^64 is never refused. *)
Definition BigInt_throws (h : Host) (text : jsstring) : bool :=
  (2 ^ 64 <=? BigInt_of_string text)
  && BigInt_refuses h (BigInt_of_string text).

Definition parseThrows (h : Host) (text : jsstring) : bool :=
  test_digits text && BigInt_throws h text.

Definition maxInt64 : Z := BigInt_of_string (js "9223372036854775807").

(** Lines 150-152: the plausibility test against the clock reading. *)
Definition isValidTimestamp (timestamp : number) (now : Z) : bool :=
  num_gtb timestamp (Finite TIMESTAMP_OFFSET) &&
  num_leb timestamp (num_add (Finite now) (Finite 60000)).

(** Lines 143-163: the record built from a value that passed the range
    check. *)
Definition buildResult (h : Host) (st : State) (decimalValue : Z)
  : DecodedId :=
  let appId := getAppId decimalValue in
  let clusterId := getClusterId decimalValue in
  let sequence := getSequence decimalValue in
  let timestamp := getTimestamp decimalValue in
  let formattedTimestamp :=
    formatTimestamp h timestamp (selectedTimezone st) in
  let now := Date_now h in
  mkDecodedId (trim (inputId st)) decimalValue appId clusterId sequence
    timestamp formattedTimestamp (isValidTimestamp timestamp now).

(** The handler.  Inside the [try] block [BigInt(text)] (line 123) throws
    when the engine refuses the number of a digit string; the [catch] arm
    (lines 168-172) then leaves its message and no record.  The range
    test and the getters do not throw on the values that reach them, and
    [formatTimestamp] is a function of the host that returns a text. *)
Definition decodeId (h : Host) (st : State) : State :=
  match trim (inputId st) with
  | [] => setDecodedId None (setError (Some MSG_EMPTY) st)
  | _ :: _ =>
      let st1 := setError None st in
      if parseThrows h (trim (inputId st))
      then setDecodedId None (setError (Some MSG_FAILED) st1)
      else
        match parseInput (trim (inputId st)) with
        | None => setDecodedId None (setError (Some MSG_FORMAT) st1)
        | Some decimalValue =>
            if (decimalValue <? 0) || (maxInt64 <? decimalValue)
            then setDecodedId None (setError (Some MSG_RANGE) st1)
            else setError None
                   (setDecodedId (Some (buildResult h st1 decimalValue))
                      st1)
        end
  end.

(** *** The other handlers (lines 181-197) *)
Definition setInputId (text : jsstring) (st : State) : State :=
  mkState text (decodedId st) (error st) (selectedTimezone st).

Definition setSelectedTimezone (timezone : timezone) (st : State) : State :=
  mkState (inputId st) (decodedId st) (error st) timezone.

Definition clearAll (st : State) : State :=
  setError None (setDecodedId None (setInputId [] st)).

(** The spread [{...decodedId, formattedTimestamp: ...}] copies every
    member but the one it names. *)
Definition handleTimezoneChange (h : Host) (timezone : timezone)
  (st : State) : State :=
  let st1 := setSelectedTimezone timezone st in
  match decodedId st with
  | Some d =>
      let updatedDecodedId :=
        mkDecodedId (originalId d) (decimalValue d) (appId d)
          (clusterId d) (sequence d) (timestamp d)
          (formatTimestamp h (timestamp d) timezone) (isValid d) in
      setDecodedId (Some updatedDecodedId) st1
  | None => st1
  end.

(** The click handler of the time zone badge (line 336). *)
Definition timezoneBadgeClick (h : Host) (st : State) : State :=
  handleTimezoneChange h
    (match selectedTimezone st with japan => local | local => japan end)
    st.

(** The [disabled] attribute of the Decode button (line 242). *)
Definition decodeDisabled (st : State) : bool :=
  match trim (inputId st) with
  | [] => true
  | _ :: _ => false
  end.

(** *** formatBigInt (lines 203-207) *)
Definition formatBigInt (value : Z) : jsstring :=
  replace_thousands (BigInt_toString 10 value).

(** *** The bit strings of the 64-bit structure panel (lines 357-369) *)
Definition bitValueTimestamp (d : DecodedId) : jsstring :=
  slice0 40
    (padStart 40 48 (BigInt_toString 2 (Z.shiftr (decimalValue d) BITS012))).

Definition bitValueSequence (d : DecodedId) : jsstring :=
  padStart 14 48 (Number_toString 2 (sequence d)).

Definition bitValueCluster (d : DecodedId) : jsstring :=
  padStart 2 48 (Number_toString 2 (clusterId d)).

Definition bitValueApp (d : DecodedId) : jsstring :=
  padStart 7 48 (Number_toString 2 (appId d)).

(** *** The days since the epoch offset (lines 343-345) *)
Definition daysSinceEpoch (d : DecodedId) : number :=
  floor_quotient (num_sub (timestamp d) (Finite TIMESTAMP_OFFSET))
    (1000 * 60 * 60 * 24).

End IdDecoderTool.

(* ================================================================== *)
(** ** The packing of the specification *)
(* ================================================================== *)

Module Layout.

(** The packing formula of the specification's record invariant,
    [(timestampDelta << 23) | (sequence << 9) | (clusterId << 7) | appId].
    The component only decodes; the formula is what the getters are
    compared with. *)
Definition pack (timestampDelta sequence clusterId appId : Z) : Z :=
  Z.lor (Z.lor (Z.lor (Z.shiftl timestampDelta 23) (Z.shiftl sequence 9))
               (Z.shiftl clusterId 7))
        appId.

End Layout.

Import JS IdDecoderTool Layout.

(** The number the loop of [decode36] has accumulated after the digits
    of [s], starting from [result]. *)
Definition accumulate36 (s : jsstring) (result : Z) : Z :=
  fold_left (fun acc char => acc * 36 + digit_of char) s result.

(** The digits 0-9 and the upper-case letters A-Z. *)
Definition is_upper36 (c : Z) : bool :=
  ((48 <=? c) && (c <=? 57)) || ((65 <=? c) && (c <=? 90)).

(** The number a string of binary digits writes. *)
Definition binary_value (s : jsstring) : Z :=
  fold_left (fun acc c => acc * 2 + (c - 48)) s 0.

Definition is_bit (c : Z) : bool := (c =? 48) || (c =? 49).

(** A text with its commas removed. *)
Definition strip_commas (s : jsstring) : jsstring :=
  filter (fun c => negb (c =? 44)) s.

(** The units the base-36 path of the handler accepts: the digits, the
    letters of both cases, and U+212A, which lower-cases to k. *)
Definition is_base36_input (c : Z) : bool :=
  ((48 <=? c) && (c <=? 57)) || ((65 <=? c) && (c <=? 90))
  || ((97 <=? c) && (c <=? 122)) || (c =? 8490).

(** A base-36 text without a leading zero, the text 0 apart. *)
Definition no_leading_zero (s : jsstring) : Prop :=
  match s with
  | [] => False
  | c :: rest => c <> 48 \/ rest = []
  end.

Definition is_ascii_unit (c : Z) : bool := (0 <=? c) && (c <=? 127).

(* ================================================================== *)
(** ** Numbers and masks *)
(* ================================================================== *)

Lemma round53_exact (z : Z) : Z.abs z < 2 ^ 53 -> round53 z = z.
Proof.
  intros H. unfold round53.
  destruct (Z.ltb_spec (Z.abs z) (2 ^ 53)); [reflexivity | lia].
Qed.

Lemma of_exact_small (z : Z) : Z.abs z < 2 ^ 53 -> of_exact z = Finite z.
Proof.
  intros H. unfold of_exact. rewrite (round53_exact z H).
  assert (H1024 : 2 ^ 53 < 2 ^ 1024)
    by (apply Z.pow_lt_mono_r; lia).
  destruct (Z.leb_spec (2 ^ 1024) z); [lia |].
  destruct (Z.leb_spec z (- 2 ^ 1024)); [lia | reflexivity].
Qed.

Lemma Number_small (b : Z) : Z.abs b < 2 ^ 53 -> Number b = Finite b.
Proof. exact (of_exact_small b). Qed.

Lemma num_add_small (a b : Z) :
  Z.abs (a + b) < 2 ^ 53 -> num_add (Finite a) (Finite b) = Finite (a + b).
Proof. intros H. simpl. now apply of_exact_small. Qed.

Lemma MASK0_value : MASK0 = 127.
Proof. reflexivity. Qed.

Lemma MASK1_value : MASK1 = 3.
Proof. reflexivity. Qed.

Lemma MASK2_value : MASK2 = 16383.
Proof. reflexivity. Qed.

(** The shift count of [<<] is taken modulo 32, so [1 << 40] is [1 << 8].
    No getter uses this mask. *)
Lemma MASK3_value : MASK3 = 255.
Proof. reflexivity. Qed.

Lemma maxInt64_value : maxInt64 = 2 ^ 63 - 1.
Proof. reflexivity. Qed.

(* ================================================================== *)
(** ** Field layout *)
(* ================================================================== *)

Section FieldLayout.

(** Or-ing a value below [2^k] under a value shifted by [k] adds them. *)
Lemma lor_shiftl_add (hi lo k : Z) :
  0 <= k -> 0 <= lo < 2 ^ k ->
  Z.lor (Z.shiftl hi k) lo = hi * 2 ^ k + lo.
Proof.
  intros Hk Hlo.
  assert (Hdisj : Z.land (Z.shiftl hi k) lo = 0).
  { apply Z.bits_inj'. intros n Hn.
    rewrite Z.land_spec, Z.bits_0.
    destruct (Z.lt_ge_cases n k) as [Hlt | Hge].
    - rewrite Z.shiftl_spec_low by assumption. reflexivity.
    - replace (Z.testbit lo n) with false; [apply andb_false_r |].
      symmetry. rewrite <- (Z.mod_small lo (2 ^ k)) by assumption.
      apply Z.mod_pow2_bits_high. lia. }
  rewrite <- Z.lxor_lor by assumption.
  rewrite <- Z.add_nocarry_lxor by assumption.
  rewrite Z.shiftl_mul_pow2 by assumption. reflexivity.
Qed.

(** The packing as a sum, when the three low fields fit their widths. *)
Lemma pack_sum (delta seq cl app : Z) :
  0 <= app < 2 ^ 7 -> 0 <= cl < 2 ^ 2 -> 0 <= seq < 2 ^ 14 ->
  pack delta seq cl app = delta * 2 ^ 23 + seq * 2 ^ 9 + cl * 2 ^ 7 + app.
Proof.
  intros Ha Hc Hs. unfold pack.
  replace (Z.shiftl delta 23) with (Z.shiftl (Z.shiftl delta 14) 9)
    by (rewrite Z.shiftl_shiftl by lia; reflexivity).
  rewrite <- Z.shiftl_lor, (lor_shiftl_add delta seq 14) by lia.
  set (hi := delta * 2 ^ 14 + seq).
  replace (Z.shiftl hi 9) with (Z.shiftl (Z.shiftl hi 2) 7)
    by (rewrite Z.shiftl_shiftl by lia; reflexivity).
  rewrite <- Z.shiftl_lor, (lor_shiftl_add hi cl 2) by lia.
  rewrite (lor_shiftl_add (hi * 2 ^ 2 + cl) app 7) by lia.
  subst hi. lia.
Qed.

(** The getters as quotients and remainders. *)
Lemma land_MASK0 (id : Z) : Z.land id MASK0 = id mod 2 ^ 7.
Proof. rewrite MASK0_value. exact (Z.land_ones id 7 ltac:(lia)). Qed.

Lemma land_MASK1 (id : Z) :
  Z.land (Z.shiftr id BITS0) MASK1 = (id / 2 ^ 7) mod 2 ^ 2.
Proof.
  rewrite MASK1_value. unfold BITS0.
  rewrite Z.shiftr_div_pow2 by lia. exact (Z.land_ones _ 2 ltac:(lia)).
Qed.

Lemma land_MASK2 (id : Z) :
  Z.land (Z.shiftr id BITS01) MASK2 = (id / 2 ^ 9) mod 2 ^ 14.
Proof.
  rewrite MASK2_value. change BITS01 with 9.
  rewrite Z.shiftr_div_pow2 by lia. exact (Z.land_ones _ 14 ltac:(lia)).
Qed.

Lemma shiftr_BITS012 (id : Z) : Z.shiftr id BITS012 = id / 2 ^ 23.
Proof. change BITS012 with 23. apply Z.shiftr_div_pow2. lia. Qed.

(** Below [2^63] every conversion to Number is exact: the getters return
    the plain quotients and remainders. *)
Lemma getAppId_exact (id : Z) : getAppId id = Finite (id mod 2 ^ 7).
Proof.
  unfold getAppId. rewrite land_MASK0. apply Number_small.
  pose proof (Z.mod_pos_bound id (2 ^ 7) ltac:(lia)). lia.
Qed.

Lemma getClusterId_exact (id : Z) :
  getClusterId id = Finite ((id / 2 ^ 7) mod 2 ^ 2).
Proof.
  unfold getClusterId. rewrite land_MASK1. apply Number_small.
  pose proof (Z.mod_pos_bound (id / 2 ^ 7) (2 ^ 2) ltac:(lia)). lia.
Qed.

Lemma getSequence_exact (id : Z) :
  getSequence id = Finite ((id / 2 ^ 9) mod 2 ^ 14).
Proof.
  unfold getSequence. rewrite land_MASK2. apply Number_small.
  pose proof (Z.mod_pos_bound (id / 2 ^ 9) (2 ^ 14) ltac:(lia)). lia.
Qed.

Lemma timestampDelta_range (id : Z) :
  0 <= id <= 2 ^ 63 - 1 -> 0 <= id / 2 ^ 23 <= 2 ^ 40 - 1.
Proof.
  intros H. split.
  - apply Z.div_pos; lia.
  - assert (id / 2 ^ 23 < 2 ^ 40); [| lia].
    apply Z.div_lt_upper_bound; lia.
Qed.

Lemma getTimestamp_exact (id : Z) :
  0 <= id <= 2 ^ 63 - 1 ->
  getTimestamp id = Finite (id / 2 ^ 23 + TIMESTAMP_OFFSET).
Proof.
  intros H. pose proof (timestampDelta_range id H) as Hd.
  unfold getTimestamp. rewrite shiftr_BITS012.
  rewrite Number_small by lia.
  apply num_add_small. unfold TIMESTAMP_OFFSET. lia.
Qed.

Lemma timestamp_minus_offset (d : Z) :
  0 <= d <= 2 ^ 40 - 1 ->
  num_sub (Finite (d + TIMESTAMP_OFFSET)) (Finite TIMESTAMP_OFFSET)
  = Finite d.
Proof.
  intros H. unfold num_sub, num_opp.
  rewrite num_add_small by (unfold TIMESTAMP_OFFSET; lia).
  f_equal. lia.
Qed.

End FieldLayout.

(** C1.  Packing four fields that fit their widths as
    [(delta << 23) | (sequence << 9) | (clusterId << 7) | appId] gives a
    value in [0, 2^63 - 1] from which [getAppId], [getClusterId],
    [getSequence] and [getTimestamp] minus the epoch offset return the
    four fields; and every value in [0, 2^63 - 1] is the packing of the
    four fields the getters extract from it, each within its width. *)
Theorem field_extraction_inverts_packing :
  (forall appId clusterId sequence delta : Z,
      0 <= appId <= 127 -> 0 <= clusterId <= 3 ->
      0 <= sequence <= 16383 -> 0 <= delta <= 2 ^ 40 - 1 ->
      let rawValue := pack delta sequence clusterId appId in
      0 <= rawValue <= 2 ^ 63 - 1 /\
      getAppId rawValue = Finite appId /\
      getClusterId rawValue = Finite clusterId /\
      getSequence rawValue = Finite sequence /\
      num_sub (getTimestamp rawValue) (Finite TIMESTAMP_OFFSET)
      = Finite delta)
  /\
  (forall rawValue : Z,
      0 <= rawValue <= 2 ^ 63 - 1 ->
      exists appId clusterId sequence delta : Z,
        (0 <= appId <= 127 /\ 0 <= clusterId <= 3 /\
         0 <= sequence <= 16383 /\ 0 <= delta <= 2 ^ 40 - 1) /\
        getAppId rawValue = Finite appId /\
        getClusterId rawValue = Finite clusterId /\
        getSequence rawValue = Finite sequence /\
        num_sub (getTimestamp rawValue) (Finite TIMESTAMP_OFFSET)
        = Finite delta /\
        rawValue = pack delta sequence clusterId appId).
Proof.
  split.
  - intros appId clusterId sequence delta Ha Hc Hs Hd rawValue.
    assert (Hsum : rawValue
                   = delta * 2 ^ 23 + sequence * 2 ^ 9
                     + clusterId * 2 ^ 7 + appId)
      by (apply pack_sum; lia).
    clearbody rawValue.
    assert (Hrange : 0 <= rawValue <= 2 ^ 63 - 1) by lia.
    rewrite getAppId_exact, getClusterId_exact, getSequence_exact,
      (getTimestamp_exact rawValue Hrange).
    assert (E0 : rawValue mod 2 ^ 7 = appId)
      by (subst rawValue; Z.div_mod_to_equations; lia).
    assert (E1 : (rawValue / 2 ^ 7) mod 2 ^ 2 = clusterId)
      by (subst rawValue; Z.div_mod_to_equations; lia).
    assert (E2 : (rawValue / 2 ^ 9) mod 2 ^ 14 = sequence)
      by (subst rawValue; Z.div_mod_to_equations; lia).
    assert (E3 : rawValue / 2 ^ 23 = delta)
      by (subst rawValue; Z.div_mod_to_equations; lia).
    rewrite E0, E1, E2, E3.
    repeat split; try lia.
    apply timestamp_minus_offset; lia.
  - intros rawValue Hrange.
    pose proof (timestampDelta_range rawValue Hrange) as Hd.
    pose proof (Z.mod_pos_bound rawValue (2 ^ 7) ltac:(lia)) as Ha.
    pose proof (Z.mod_pos_bound (rawValue / 2 ^ 7) (2 ^ 2) ltac:(lia)) as Hc.
    pose proof (Z.mod_pos_bound (rawValue / 2 ^ 9) (2 ^ 14) ltac:(lia)) as Hs.
    exists (rawValue mod 2 ^ 7), ((rawValue / 2 ^ 7) mod 2 ^ 2),
      ((rawValue / 2 ^ 9) mod 2 ^ 14), (rawValue / 2 ^ 23).
    rewrite getAppId_exact, getClusterId_exact, getSequence_exact,
      (getTimestamp_exact rawValue Hrange).
    repeat split; try lia.
    + apply timestamp_minus_offset; lia.
    + rewrite pack_sum by lia.
      clear Ha Hc Hs Hd. Z.div_mod_to_equations. lia.
Qed.

Lemma field_extraction_inverts_packing_witness :
  (0 <= 5 <= 127 /\ 0 <= 2 <= 3 /\ 0 <= 100 <= 16383 /\
   0 <= 123456789 <= 2 ^ 40 - 1) /\
  getAppId (pack 123456789 100 2 5) = Finite 5 /\
  getClusterId (pack 123456789 100 2 5) = Finite 2 /\
  getSequence (pack 123456789 100 2 5) = Finite 100 /\
  num_sub (getTimestamp (pack 123456789 100 2 5)) (Finite TIMESTAMP_OFFSET)
  = Finite 123456789 /\
  0 <= 4611686018427387904 <= 2 ^ 63 - 1 /\
  exists appId clusterId sequence delta : Z,
    getAppId 4611686018427387904 = Finite appId /\
    getClusterId 4611686018427387904 = Finite clusterId /\
    getSequence 4611686018427387904 = Finite sequence /\
    4611686018427387904 = pack delta sequence clusterId appId.
Proof.
  split; [lia |].
  destruct (proj1 field_extraction_inverts_packing 5 2 100 123456789
              ltac:(lia) ltac:(lia) ltac:(lia) ltac:(lia))
    as (_ & Ha & Hc & Hs & Ht).
  repeat (split; [assumption |]).
  split; [lia |].
  destruct (proj2 field_extraction_inverts_packing 4611686018427387904
              ltac:(lia))
    as (a & c & q & d & _ & Ha' & Hc' & Hs' & _ & Hp).
  exists a, c, q, d. repeat split; assumption.
Defined.

(* ================================================================== *)
(** ** Trimming *)
(* ================================================================== *)

Section Trimming.

Lemma trimStart_nil_iff (s : jsstring) :
  trimStart s = [] <-> forallb is_whitespace s = true.
Proof.
  induction s as [| c rest IH]; simpl.
  - tauto.
  - destruct (is_whitespace c); simpl.
    + exact IH.
    + split; discriminate.
Qed.

Lemma trimStart_whitespace_suffix (s : jsstring) :
  forallb is_whitespace (trimStart s) = true ->
  forallb is_whitespace s = true.
Proof.
  induction s as [| c rest IH]; simpl; [reflexivity |].
  destruct (is_whitespace c) eqn:Hc; simpl.
  - exact IH.
  - rewrite Hc. discriminate.
Qed.

Lemma forallb_rev {A} (p : A -> bool) (l : list A) :
  forallb p (rev l) = forallb p l.
Proof.
  induction l as [| x l IH]; simpl; [reflexivity |].
  rewrite forallb_app, IH. simpl. rewrite andb_true_r. apply andb_comm.
Qed.

(** The trimmed text is empty exactly when the text is empty or all
    whitespace. *)
Lemma trim_nil_iff (s : jsstring) :
  trim s = [] <-> forallb is_whitespace s = true.
Proof.
  unfold trim, trimEnd. split.
  - intros H. apply trimStart_whitespace_suffix.
    rewrite <- forallb_rev. apply trimStart_nil_iff.
    apply (f_equal (@rev Z)) in H. rewrite rev_involutive in H. exact H.
  - intros H. apply trimStart_nil_iff in H. rewrite H. reflexivity.
Qed.

End Trimming.

(* ================================================================== *)
(** ** The base-36 parser *)
(* ================================================================== *)

Section Base36.

Lemma digit_of_range (char : Z) : -1 <= digit_of char < 36.
Proof.
  unfold digit_of.
  destruct (Z.leb_spec 48 char), (Z.leb_spec char 57); simpl; try lia;
    destruct (Z.leb_spec 65 char), (Z.leb_spec char 90); simpl; try lia;
    destruct (Z.leb_spec 97 char), (Z.leb_spec char 122); simpl; lia.
Qed.

Lemma decode36_loop_step (char : Z) (rest : jsstring) (result : Z) :
  digit_of char <> -1 ->
  decode36_loop (char :: rest) result
  = decode36_loop rest (result * 36 + digit_of char).
Proof.
  intros H. simpl. pose proof (digit_of_range char).
  destruct (Z.eqb_spec (digit_of char) (-1)); [contradiction |].
  destruct (Z.leb_spec 36 (digit_of char)); [lia | reflexivity].
Qed.

Lemma decode36_loop_reject (char : Z) (rest : jsstring) (result : Z) :
  digit_of char = -1 -> decode36_loop (char :: rest) result = None.
Proof. intros H. simpl. rewrite H. reflexivity. Qed.

Lemma decode36_loop_accepts (s : jsstring) (result : Z) :
  Forall (fun char => digit_of char <> -1) s ->
  decode36_loop s result = Some (accumulate36 s result).
Proof.
  intros H. revert result.
  induction H as [| char rest Hc _ IH]; intros result; [reflexivity |].
  rewrite decode36_loop_step by assumption. apply IH.
Qed.

Lemma decode36_loop_app (s1 s2 : jsstring) (result : Z) :
  decode36_loop (s1 ++ s2) result
  = match decode36_loop s1 result with
    | Some r => decode36_loop s2 r
    | None => None
    end.
Proof.
  revert result. induction s1 as [| char rest IH]; intros result.
  - reflexivity.
  - simpl. destruct ((digit_of char =? -1) || (36 <=? digit_of char));
      [reflexivity | apply IH].
Qed.

Lemma decode36_loop_nonneg (s : jsstring) (result r : Z) :
  0 <= result -> decode36_loop s result = Some r -> 0 <= r.
Proof.
  revert result. induction s as [| char rest IH]; intros result Hr H.
  - simpl in H. injection H as <-. exact Hr.
  - pose proof (digit_of_range char).
    destruct (Z.eq_dec (digit_of char) (-1)) as [E | E].
    + rewrite decode36_loop_reject in H by assumption. discriminate.
    + rewrite decode36_loop_step in H by assumption.
      apply (IH (result * 36 + digit_of char)); [lia | exact H].
Qed.

End Base36.

(* ================================================================== *)
(** ** The radix printer *)
(* ================================================================== *)

Section Printer.

Variable radix : Z.
Hypothesis radix_gt_1 : 1 < radix.

Lemma to_digits_acc (fuel : nat) (n : Z) (acc : jsstring) :
  to_digits fuel radix n acc = to_digits fuel radix n [] ++ acc.
Proof.
  revert n acc. induction fuel as [| fuel IH]; intros n acc; simpl.
  - reflexivity.
  - destruct (n <? radix); [reflexivity |].
    rewrite (IH _ (_ :: acc)), (IH _ [_]), <- app_assoc. reflexivity.
Qed.

Lemma to_digits_S (fuel : nat) (n : Z) (acc : jsstring) :
  to_digits (S fuel) radix n acc
  = if n <? radix then digit_char (n mod radix) :: acc
    else to_digits fuel radix (n / radix) (digit_char (n mod radix) :: acc).
Proof. reflexivity. Qed.

(** Induction along the digits the printer emits: a property of the
    one-digit strings that extends over each further digit holds of every
    printed magnitude, provided the fuel covers the bits of [n]. *)
Lemma to_digits_ind (P : Z -> jsstring -> Prop) :
  (forall d, 0 <= d < radix -> P d [digit_char d]) ->
  (forall n s, radix <= n -> P (n / radix) s ->
               P n (s ++ [digit_char (n mod radix)])) ->
  forall (fuel : nat) (n : Z),
    0 <= n < 2 ^ Z.of_nat (S fuel) ->
    P n (to_digits (S fuel) radix n []).
Proof.
  intros Hbase Hstep fuel.
  induction fuel as [| fuel IH]; intros n Hn.
  - assert (Hlt : n < radix) by (change (2 ^ Z.of_nat 1) with 2 in Hn; lia).
    simpl. rewrite Z.mod_small by lia.
    destruct (n <? radix); apply Hbase; lia.
  - rewrite to_digits_S. destruct (Z.ltb_spec n radix) as [Hlt | Hge].
    + rewrite Z.mod_small by lia. apply Hbase; lia.
    + rewrite to_digits_acc. apply Hstep; [exact Hge |].
      apply IH. split; [apply Z.div_pos; lia |].
      apply Z.div_lt_upper_bound; [lia |].
      rewrite (Nat2Z.inj_succ (S fuel)), Z.pow_succ_r in Hn by lia.
      assert (0 < 2 ^ Z.of_nat (S fuel)) by (apply Z.pow_pos_nonneg; lia).
      nia.
Qed.

Lemma magnitude_digits_ind (P : Z -> jsstring -> Prop) :
  (forall d, 0 <= d < radix -> P d [digit_char d]) ->
  (forall n s, radix <= n -> P (n / radix) s ->
               P n (s ++ [digit_char (n mod radix)])) ->
  forall n : Z, 0 <= n -> P n (magnitude_digits radix n).
Proof.
  intros Hbase Hstep n Hn. unfold magnitude_digits.
  apply to_digits_ind; try assumption.
  split; [exact Hn |].
  rewrite Nat2Z.inj_succ, Z2Nat.id by apply Z.log2_nonneg.
  destruct (Z.eq_dec n 0) as [-> | Hnz]; [reflexivity |].
  apply Z.log2_spec. lia.
Qed.

End Printer.

(* ================================================================== *)
(** ** Round trips through text *)
(* ================================================================== *)

Section RoundTrip.

Ltac split_comparisons :=
  repeat (match goal with
          | |- context [Z.leb ?a ?b] => destruct (Z.leb_spec a b)
          | |- context [Z.ltb ?a ?b] => destruct (Z.ltb_spec a b)
          end; cbn [andb orb]; try lia).

Lemma upper_unit_digit_char (d : Z) :
  0 <= d < 36 ->
  upper_unit (digit_char d) = if d <? 10 then 48 + d else 55 + d.
Proof.
  intros H. unfold digit_char.
  destruct (Z.ltb_spec d 10); unfold upper_unit; split_comparisons.
Qed.

Lemma digit_of_upper_digit_char (d : Z) :
  0 <= d < 36 -> digit_of (upper_unit (digit_char d)) = d.
Proof.
  intros H. rewrite upper_unit_digit_char by assumption.
  destruct (Z.ltb_spec d 10); unfold digit_of; split_comparisons.
Qed.

Lemma is_upper36_upper_digit_char (d : Z) :
  0 <= d < 36 -> is_upper36 (upper_unit (digit_char d)) = true.
Proof.
  intros H. rewrite upper_unit_digit_char by assumption.
  destruct (Z.ltb_spec d 10); unfold is_upper36; split_comparisons;
    reflexivity.
Qed.

Lemma is_digit_digit_char (d : Z) :
  0 <= d < 10 -> is_digit (digit_char d) = true.
Proof.
  intros H. unfold digit_char.
  destruct (Z.ltb_spec d 10); [| lia].
  unfold is_digit; split_comparisons; reflexivity.
Qed.

Lemma digit_char_decimal (d : Z) : 0 <= d < 10 -> digit_char d - 48 = d.
Proof.
  intros H. unfold digit_char. destruct (Z.ltb_spec d 10); lia.
Qed.

(** [decode36] reads back what [toString(36).toUpperCase()] prints, for
    every magnitude. *)
Lemma decode36_magnitude_digits (n : Z) :
  0 <= n -> decode36 (toUpperCase (magnitude_digits 36 n)) = Some n.
Proof.
  apply (magnitude_digits_ind 36 ltac:(lia)
           (fun n s => decode36 (toUpperCase s) = Some n)).
  - intros d Hd. unfold decode36. simpl toUpperCase.
    rewrite decode36_loop_step
      by (rewrite digit_of_upper_digit_char; lia).
    rewrite digit_of_upper_digit_char by lia. reflexivity.
  - intros m s Hm IH. unfold decode36, toUpperCase in *.
    rewrite map_app, decode36_loop_app, IH. simpl map.
    pose proof (Z.mod_pos_bound m 36 ltac:(lia)) as Hr.
    rewrite decode36_loop_step
      by (rewrite digit_of_upper_digit_char; lia).
    rewrite digit_of_upper_digit_char by lia. simpl. f_equal.
    pose proof (Z.div_mod m 36 ltac:(lia)). lia.
Qed.

Lemma decode36_encodeToBase36 (v : Z) :
  0 <= v -> decode36 (encodeToBase36 v) = Some v.
Proof.
  intros H. unfold encodeToBase36, BigInt_toString.
  destruct (Z.ltb_spec v 0); [lia |]. now apply decode36_magnitude_digits.
Qed.

Lemma encodeToBase36_upper (v : Z) :
  0 <= v -> forallb is_upper36 (encodeToBase36 v) = true.
Proof.
  intros H. unfold encodeToBase36, BigInt_toString.
  destruct (Z.ltb_spec v 0) as [Hneg | _]; [lia |]. revert v H.
  apply (magnitude_digits_ind 36 ltac:(lia)
           (fun _ s => forallb is_upper36 (toUpperCase s) = true)).
  - intros d Hd. simpl. now rewrite is_upper36_upper_digit_char.
  - intros m s Hm IH. unfold toUpperCase in *.
    rewrite map_app, forallb_app, IH. simpl.
    rewrite is_upper36_upper_digit_char; [reflexivity |].
    apply Z.mod_pos_bound. lia.
Qed.

(** The decimal printer emits one or more digits, which [BigInt] reads
    back. *)
Lemma decimal_toString_roundtrip (v : Z) :
  0 <= v ->
  test_digits (BigInt_toString 10 v) = true /\
  BigInt_of_string (BigInt_toString 10 v) = v.
Proof.
  intros H. unfold BigInt_toString.
  destruct (Z.ltb_spec v 0) as [Hneg | _]; [lia |]. revert v H.
  apply (magnitude_digits_ind 10 ltac:(lia)
           (fun n s => test_digits s = true /\ BigInt_of_string s = n)).
  - intros d Hd. unfold BigInt_of_string. simpl.
    rewrite is_digit_digit_char, digit_char_decimal by lia. split; [reflexivity | lia].
  - intros m s Hm [IHt IHv].
    pose proof (Z.mod_pos_bound m 10 ltac:(lia)) as Hr.
    split.
    + destruct s as [| c s']; [discriminate |].
      change (forallb is_digit ((c :: s') ++ [digit_char (m mod 10)]) = true).
      rewrite forallb_app. simpl in IHt |- *. rewrite IHt. simpl.
      now rewrite is_digit_digit_char.
    + unfold BigInt_of_string in *. rewrite fold_left_app, IHv. simpl.
      rewrite digit_char_decimal by lia.
      pose proof (Z.div_mod m 10 ltac:(lia)). lia.
Qed.

End RoundTrip.

(** C2.  For every value in [0, 2^64 - 1]: [encodeToBase36] prints it
    with digits and upper-case letters only and [decode36] reads the
    printed text back as the value; the decimal text of the value is a
    digit string, which [BigInt] reads back as the value, and so does
    the dispatch of the handler. *)
Theorem text_round_trip (v : Z) :
  0 <= v <= 2 ^ 64 - 1 ->
  decode36 (encodeToBase36 v) = Some v /\
  forallb is_upper36 (encodeToBase36 v) = true /\
  test_digits (BigInt_toString 10 v) = true /\
  BigInt_of_string (BigInt_toString 10 v) = v /\
  parseInput (BigInt_toString 10 v) = Some v.
Proof.
  intros [H0 _].
  destruct (decimal_toString_roundtrip v H0) as [Ht Hv].
  repeat split.
  - now apply decode36_encodeToBase36.
  - now apply encodeToBase36_upper.
  - exact Ht.
  - exact Hv.
  - unfold parseInput. rewrite Ht, Hv. reflexivity.
Qed.

Lemma text_round_trip_witness :
  0 <= 18446744073709551615 <= 2 ^ 64 - 1 /\
  decode36 (encodeToBase36 18446744073709551615)
  = Some 18446744073709551615 /\
  BigInt_of_string (BigInt_toString 10 18446744073709551615)
  = 18446744073709551615.
Proof.
  split; [lia |].
  destruct (text_round_trip 18446744073709551615 ltac:(lia))
    as (H36 & _ & _ & H10 & _).
  split; assumption.
Defined.

(* ================================================================== *)
(** ** Rounding outside the exact range *)
(* ================================================================== *)

Section Rounding.

Lemma round53_opp (z : Z) : round53 (- z) = - round53 z.
Proof.
  unfold round53. rewrite Z.abs_opp, Z.sgn_opp.
  destruct (Z.abs z <? 2 ^ 53); [reflexivity | ring].
Qed.

Lemma round53_ge (z : Z) : 2 ^ 53 <= z -> 2 ^ 53 <= round53 z.
Proof.
  intros H. unfold round53.
  rewrite (Z.abs_eq z) by lia.
  destruct (Z.ltb_spec z (2 ^ 53)) as [Hlt | _]; [lia |].
  rewrite (Z.sgn_pos z) by lia.
  set (e := Z.log2 z - 52).
  assert (HL : 53 <= Z.log2 z).
  { rewrite <- (Z.log2_pow2 53) by lia. apply Z.log2_le_mono. exact H. }
  assert (He : 1 <= e) by (subst e; lia).
  assert (Hpow : 2 <= 2 ^ e).
  { change 2 with (2 ^ 1) at 1. apply Z.pow_le_mono_r; lia. }
  assert (Hq : 2 ^ 52 <= z / 2 ^ e).
  { apply Z.div_le_lower_bound; [lia |].
    rewrite <- Z.pow_add_r by lia.
    replace (e + 52) with (Z.log2 z) by (subst e; lia).
    apply Z.log2_spec. lia. }
  set (q := z / 2 ^ e) in *.
  assert (Hq' : q <= (if z mod 2 ^ e <? 2 ^ (e - 1) then q
                      else if 2 ^ (e - 1) <? z mod 2 ^ e then q + 1
                      else if Z.even q then q else q + 1)).
  { destruct (z mod 2 ^ e <? 2 ^ (e - 1)); [lia |].
    destruct (2 ^ (e - 1) <? z mod 2 ^ e); [lia |].
    destruct (Z.even q); lia. }
  change (2 ^ 53) with (2 ^ 52 * 2). nia.
Qed.

Lemma round53_le (z : Z) : z <= - 2 ^ 53 -> round53 z <= - 2 ^ 53.
Proof.
  intros H. pose proof (round53_ge (- z) ltac:(lia)) as Hge.
  rewrite round53_opp in Hge. lia.
Qed.

(** Comparing an exactly represented integer with a rounded sum gives
    what the comparison with the exact sum gives. *)
Lemma num_leb_rounded (t x : Z) :
  Z.abs t < 2 ^ 53 -> num_leb (Finite t) (of_exact x) = (t <=? x).
Proof.
  intros Ht.
  destruct (Z.lt_ge_cases (Z.abs x) (2 ^ 53)) as [Hx | Hx].
  - rewrite of_exact_small by assumption. simpl.
    destruct (Z.ltb_spec x t), (Z.leb_spec t x); simpl; try reflexivity; lia.
  - assert (Hbig : 2 ^ 53 < 2 ^ 1024) by (apply Z.pow_lt_mono_r; lia).
    unfold of_exact. destruct (Z.le_ge_cases 0 x) as [Hpos | Hneg].
    + pose proof (round53_ge x ltac:(lia)) as Hr.
      destruct (Z.leb_spec (2 ^ 1024) (round53 x)).
      * symmetry. apply Z.leb_le. lia.
      * destruct (Z.leb_spec (round53 x) (- 2 ^ 1024)); [lia |].
        cbn [num_leb num_ltb].
        destruct (Z.ltb_spec (round53 x) t), (Z.leb_spec t x);
          try reflexivity; lia.
    + pose proof (round53_le x ltac:(lia)) as Hr.
      destruct (Z.leb_spec (2 ^ 1024) (round53 x)); [lia |].
      destruct (Z.leb_spec (round53 x) (- 2 ^ 1024)).
      * symmetry. apply Z.leb_gt. lia.
      * cbn [num_leb num_ltb].
        destruct (Z.ltb_spec (round53 x) t), (Z.leb_spec t x);
          try reflexivity; lia.
Qed.

(** The plausibility test on an exactly represented time stamp, in
    integer arithmetic, for every clock reading. *)
Lemma isValidTimestamp_exact (t now : Z) :
  Z.abs t < 2 ^ 53 ->
  isValidTimestamp (Finite t) now
  = (TIMESTAMP_OFFSET <? t) && (t <=? now + 60000).
Proof.
  intros Ht. unfold isValidTimestamp.
  change (num_add (Finite now) (Finite 60000)) with (of_exact (now + 60000)).
  rewrite num_leb_rounded by assumption. reflexivity.
Qed.

End Rounding.

(* ================================================================== *)
(** ** The outcomes of the handler *)
(* ================================================================== *)

Section Handler.

Variable h : Host.
Variable st : State.


Lemma parseThrows_small (text : jsstring) (v : Z) :
  parseInput text = Some v -> v < 2 ^ 64 -> parseThrows h text = false.
Proof.
  unfold parseThrows, parseInput, BigInt_throws.
  destruct (test_digits text); [| reflexivity].
  intros [= <-] Hv.
  destruct (Z.leb_spec (2 ^ 64) (BigInt_of_string text)); [lia |].
  reflexivity.
Qed.

Lemma parseThrows_no_value (text : jsstring) :
  parseInput text = None -> parseThrows h text = false.
Proof.
  unfold parseThrows, parseInput.
  destruct (test_digits text); [discriminate | reflexivity].
Qed.

Lemma decodeId_empty :
  trim (inputId st) = [] ->
  decodeId h st
  = mkState (inputId st) None (Some MSG_EMPTY) (selectedTimezone st).
Proof. intros H. unfold decodeId. rewrite H. reflexivity. Qed.

Lemma decodeId_thrown :
  trim (inputId st) <> [] ->
  parseThrows h (trim (inputId st)) = true ->
  decodeId h st
  = mkState (inputId st) None (Some MSG_FAILED) (selectedTimezone st).
Proof.
  intros Hne Hth. unfold decodeId. rewrite Hth.
  destruct (trim (inputId st)); [contradiction | reflexivity].
Qed.

Lemma decodeId_invalid :
  trim (inputId st) <> [] ->
  parseInput (trim (inputId st)) = None ->
  decodeId h st
  = mkState (inputId st) None (Some MSG_FORMAT) (selectedTimezone st).
Proof.
  intros Hne Hp. unfold decodeId.
  rewrite (parseThrows_no_value _ Hp), Hp.
  destruct (trim (inputId st)); [contradiction | reflexivity].
Qed.

Lemma decodeId_out_of_range (v : Z) :
  trim (inputId st) <> [] ->
  parseThrows h (trim (inputId st)) = false ->
  parseInput (trim (inputId st)) = Some v ->
  v < 0 \/ 2 ^ 63 - 1 < v ->
  decodeId h st
  = mkState (inputId st) None (Some MSG_RANGE) (selectedTimezone st).
Proof.
  intros Hne Hth Hp Hv. unfold decodeId. rewrite Hth, Hp.
  destruct (trim (inputId st)); [contradiction |].
  rewrite maxInt64_value.
  destruct (Z.ltb_spec v 0), (Z.ltb_spec (2 ^ 63 - 1) v);
    try reflexivity; lia.
Qed.

Lemma decodeId_decoded (v : Z) :
  trim (inputId st) <> [] ->
  parseInput (trim (inputId st)) = Some v ->
  0 <= v <= 2 ^ 63 - 1 ->
  decodeId h st
  = mkState (inputId st) (Some (buildResult h st v)) None
      (selectedTimezone st).
Proof.
  intros Hne Hp Hv. unfold decodeId.
  rewrite (parseThrows_small _ v Hp) by lia. rewrite Hp.
  destruct (trim (inputId st)); [contradiction |].
  rewrite maxInt64_value.
  destruct (Z.ltb_spec v 0), (Z.ltb_spec (2 ^ 63 - 1) v);
    try reflexivity; lia.
Qed.

End Handler.

(* ================================================================== *)
(** ** Digit strings *)
(* ================================================================== *)

Section DigitStrings.



Lemma digit_of_digit (c : Z) : is_digit c = true -> digit_of c = c - 48.
Proof.
  unfold is_digit, digit_of. intros H. rewrite H. reflexivity.
Qed.

Lemma digits_accepted (s : jsstring) :
  forallb is_digit s = true -> Forall (fun c => digit_of c <> -1) s.
Proof.
  intros H. apply Forall_forall. intros c Hin.
  rewrite forallb_forall in H. specialize (H c Hin).
  rewrite digit_of_digit by assumption.
  unfold is_digit in H. apply andb_true_iff in H as [H1 _].
  apply Z.leb_le in H1. lia.
Qed.

Lemma test_digits_forallb (s : jsstring) :
  test_digits s = true -> forallb is_digit s = true.
Proof. destruct s; [discriminate | exact id]. Qed.

Lemma decimal_fold_nonneg (s : jsstring) (acc : Z) :
  forallb is_digit s = true -> 0 <= acc ->
  0 <= fold_left (fun a c => a * 10 + (c - 48)) s acc.
Proof.
  revert acc. induction s as [| c rest IH]; intros acc H Hacc; simpl.
  - exact Hacc.
  - simpl in H. apply andb_true_iff in H as [Hc Hrest].
    apply IH; [exact Hrest |].
    unfold is_digit in Hc. apply andb_true_iff in Hc as [H1 _].
    apply Z.leb_le in H1. lia.
Qed.

Lemma BigInt_of_string_nonneg (s : jsstring) :
  test_digits s = true -> 0 <= BigInt_of_string s.
Proof.
  intros H. apply decimal_fold_nonneg; [| lia].
  now apply test_digits_forallb.
Qed.

Lemma decode36_nonneg (s : jsstring) (v : Z) :
  decode36 s = Some v -> 0 <= v.
Proof. apply decode36_loop_nonneg. lia. Qed.

Lemma parseInput_nonneg (text : jsstring) (v : Z) :
  parseInput text = Some v -> 0 <= v.
Proof.
  unfold parseInput. destruct (test_digits text) eqn:Ht.
  - intros [= <-]. now apply BigInt_of_string_nonneg.
  - apply decode36_nonneg.
Qed.

End DigitStrings.

(* ================================================================== *)
(** ** The claims about the handler *)
(* ================================================================== *)

(** C3.  For an input whose parsed value passed the range check, and for
    every clock reading [now], the handler stores a complete record and
    no error; the record carries the fields the getters extract, and its
    flag is [timestamp > TIMESTAMP_OFFSET && timestamp <= now + 60000].
    The record is there whatever the flag is.  A time stamp two hours
    ahead of [now] has the flag false; one thirty seconds ahead has it
    true (the time stamp being after the epoch offset, the first half of
    the test).  So it is for the raw value 1035630607911173, whose time
    stamp is 1451697456789: decoded with the clock two hours behind it
    the record is flagged false, with the clock thirty seconds behind it
    the record is flagged true. *)
Theorem plausibility_flag :
  (forall (h : Host) (st : State) (v : Z),
      trim (inputId st) <> [] ->
      parseInput (trim (inputId st)) = Some v ->
      0 <= v <= 2 ^ 63 - 1 ->
      exists (r : DecodedId) (timestampMillis : Z),
        decodeId h st
        = mkState (inputId st) (Some r) None (selectedTimezone st) /\
        originalId r = trim (inputId st) /\
        decimalValue r = v /\
        appId r = getAppId v /\
        clusterId r = getClusterId v /\
        sequence r = getSequence v /\
        timestamp r = getTimestamp v /\
        timestamp r = Finite timestampMillis /\
        timestampMillis = v / 2 ^ 23 + TIMESTAMP_OFFSET /\
        isValid r = (TIMESTAMP_OFFSET <? timestampMillis)
                    && (timestampMillis <=? Date_now h + 60000) /\
        (timestampMillis = Date_now h + 7200000 -> isValid r = false) /\
        (timestampMillis = Date_now h + 30000 ->
         TIMESTAMP_OFFSET < timestampMillis -> isValid r = true))
  /\
  (forall (fmt : number -> timezone -> jsstring) (d : option DecodedId)
          (e : option jsstring) (tz : timezone),
      (exists r,
          decodeId (mkHost (1451697456789 - 7200000) fmt)
            (mkState (js "1035630607911173") d e tz)
          = mkState (js "1035630607911173") (Some r) None tz /\
          timestamp r = Finite 1451697456789 /\ isValid r = false) /\
      (exists r,
          decodeId (mkHost (1451697456789 - 30000) fmt)
            (mkState (js "1035630607911173") d e tz)
          = mkState (js "1035630607911173") (Some r) None tz /\
          timestamp r = Finite 1451697456789 /\ isValid r = true)).
Proof.
  split.
  - intros h st v Hne Hp Hv.
    exists (buildResult h st v), (v / 2 ^ 23 + TIMESTAMP_OFFSET).
    pose proof (timestampDelta_range v Hv) as Hd.
    assert (Hflag : isValid (buildResult h st v)
                    = (TIMESTAMP_OFFSET <? v / 2 ^ 23 + TIMESTAMP_OFFSET)
                      && (v / 2 ^ 23 + TIMESTAMP_OFFSET
                          <=? Date_now h + 60000)).
    { cbn [buildResult isValid]. rewrite (getTimestamp_exact v Hv).
      apply isValidTimestamp_exact. unfold TIMESTAMP_OFFSET. lia. }
    split; [now apply decodeId_decoded |].
    repeat (split; [reflexivity |]).
    split; [exact (getTimestamp_exact v Hv) |].
    split; [reflexivity |].
    split; [exact Hflag |].
    rewrite Hflag. split.
    + intros E. rewrite E. apply andb_false_iff. right. apply Z.leb_gt. lia.
    + intros E Hlt. apply andb_true_iff. split.
      * apply Z.ltb_lt. exact Hlt.
      * apply Z.leb_le. lia.
  - intros fmt d e tz. split; eexists; (split; [reflexivity |]);
      split; vm_compute; reflexivity.
Qed.

Lemma plausibility_flag_witness :
  (trim (js " 1035630607911173 ") <> [] /\
   parseInput (trim (js " 1035630607911173 ")) = Some 1035630607911173 /\
   0 <= 1035630607911173 <= 2 ^ 63 - 1) /\
  (exists r,
      decodedId (decodeId (mkHost 1451697426789 (fun _ _ => js "2016/01/02"))
                   (mkState (js " 1035630607911173 ") None None japan))
      = Some r /\ isValid r = true) /\
  (exists r,
      decodedId (decodeId (mkHost 1451690256789 (fun _ _ => js "2016/01/02"))
                   (mkState (js " 1035630607911173 ") None None japan))
      = Some r /\ isValid r = false).
Proof.
  assert (Hne : trim (js " 1035630607911173 ") <> []) by discriminate.
  assert (Hp : parseInput (trim (js " 1035630607911173 "))
               = Some 1035630607911173) by reflexivity.
  assert (Hv : 0 <= 1035630607911173 <= 2 ^ 63 - 1) by lia.
  split; [repeat split; solve [assumption | lia] |].
  split.
  - destruct (proj1 plausibility_flag
                (mkHost 1451697426789 (fun _ _ => js "2016/01/02"))
                (mkState (js " 1035630607911173 ") None None japan)
                1035630607911173 Hne Hp Hv)
      as (r & t & Hd & _ & _ & _ & _ & _ & _ & _ & Ht & _ & _ & H30).
    exists r. rewrite Hd. split; [reflexivity |].
    apply H30; rewrite Ht; vm_compute; reflexivity.
  - destruct (proj1 plausibility_flag
                (mkHost 1451690256789 (fun _ _ => js "2016/01/02"))
                (mkState (js " 1035630607911173 ") None None japan)
                1035630607911173 Hne Hp Hv)
      as (r & t & Hd & _ & _ & _ & _ & _ & _ & _ & Ht & _ & H2h & _).
    exists r. rewrite Hd. split; [reflexivity |].
    apply H2h. rewrite Ht. reflexivity.
Defined.

(** C5.  The raw value 1035630607911173 is the packing of the fields
    123456789, 100, 2 and 5; the getters return appId 5, clusterId 2,
    sequence 100 and the time stamp 1451697456789, which is the delta
    plus the epoch offset 1451574000000; and the handler stores a record
    with these fields for the input text 1035630607911173. *)
Theorem exact_decode_scenario :
  pack 123456789 100 2 5 = 1035630607911173 /\
  getAppId 1035630607911173 = Finite 5 /\
  getClusterId 1035630607911173 = Finite 2 /\
  getSequence 1035630607911173 = Finite 100 /\
  getTimestamp 1035630607911173 = Finite 1451697456789 /\
  TIMESTAMP_OFFSET = 1451574000000 /\
  1451697456789 = 123456789 + TIMESTAMP_OFFSET /\
  forall (h : Host) (d : option DecodedId) (e : option jsstring)
         (tz : timezone),
  exists r,
    decodedId (decodeId h (mkState (js "1035630607911173") d e tz))
    = Some r /\
    decimalValue r = 1035630607911173 /\
    appId r = Finite 5 /\
    clusterId r = Finite 2 /\
    sequence r = Finite 100 /\
    timestamp r = Finite 1451697456789.
Proof.
  repeat (split; [vm_compute; reflexivity |]).
  intros h d e tz. eexists. split; [reflexivity |].
  repeat split; vm_compute; reflexivity.
Qed.

(** C6.  A parsed value outside [0, 9223372036854775807] (the number
    [BigInt(text)] returned on a digit string, or the one [decode36]
    returned) makes the handler store the range error and no record;
    the decimal input 9223372036854775808 is such a value, on every
    host.  When [BigInt(text)] throws instead of returning, there is no
    parsed value, and the handler stores the message of its [catch] arm
    and no record: a numeral outside the range never gives a record. *)
Theorem out_of_range_rejected :
  (forall (h : Host) (st : State) (v : Z),
      trim (inputId st) <> [] ->
      parseThrows h (trim (inputId st)) = false ->
      parseInput (trim (inputId st)) = Some v ->
      v < 0 \/ 9223372036854775807 < v ->
      decodeId h st
      = mkState (inputId st) None (Some MSG_RANGE) (selectedTimezone st))
  /\
  (forall (h : Host) (d : option DecodedId) (e : option jsstring)
          (tz : timezone),
      parseThrows h (js "9223372036854775808") = false /\
      parseInput (js "9223372036854775808") = Some (2 ^ 63) /\
      decodeId h (mkState (js "9223372036854775808") d e tz)
      = mkState (js "9223372036854775808") None (Some MSG_RANGE) tz)
  /\
  (forall (h : Host) (st : State) (v : Z),
      trim (inputId st) <> [] ->
      parseInput (trim (inputId st)) = Some v ->
      v < 0 \/ 9223372036854775807 < v ->
      decodeId h st
      = mkState (inputId st) None
          (Some (if parseThrows h (trim (inputId st))
                 then MSG_FAILED else MSG_RANGE))
          (selectedTimezone st)).
Proof.
  split; [| split].
  - intros h st v Hne Hth Hp Hv.
    apply (decodeId_out_of_range h st v Hne Hth Hp).
    change (2 ^ 63 - 1) with 9223372036854775807. exact Hv.
  - intros h d e tz. repeat split; reflexivity.
  - intros h st v Hne Hp Hv.
    destruct (parseThrows h (trim (inputId st))) eqn:Hth.
    + exact (decodeId_thrown h st Hne Hth).
    + apply (decodeId_out_of_range h st v Hne Hth Hp).
      change (2 ^ 63 - 1) with 9223372036854775807. exact Hv.
Qed.

Lemma out_of_range_rejected_witness :
  (trim (js "zzzzzzzzzzzzz") <> [] /\
   parseThrows (mkHost 1700000000000 (fun _ _ => js "-"))
     (trim (js "zzzzzzzzzzzzz")) = false /\
   parseInput (trim (js "zzzzzzzzzzzzz")) = Some 170581728179578208255 /\
   (170581728179578208255 < 0 \/
    9223372036854775807 < 170581728179578208255)) /\
  decodeId (mkHost 1700000000000 (fun _ _ => js "-"))
    (mkState (js "zzzzzzzzzzzzz") None None local)
  = mkState (js "zzzzzzzzzzzzz") None (Some MSG_RANGE) local /\
  decodeId (mkEngineHost 1700000000000 (fun _ _ => js "-") (fun _ => true))
    (mkState (js "18446744073709551616") None None local)
  = mkState (js "18446744073709551616") None (Some MSG_FAILED) local.
Proof.
  split.
  - repeat split; try reflexivity; try discriminate. right. lia.
  - split.
    + apply (proj1 out_of_range_rejected
               (mkHost 1700000000000 (fun _ _ => js "-"))
               (mkState (js "zzzzzzzzzzzzz") None None local)
               170581728179578208255).
      * discriminate.
      * reflexivity.
      * reflexivity.
      * right. lia.
    + apply (proj2 (proj2 out_of_range_rejected)
               (mkEngineHost 1700000000000 (fun _ _ => js "-")
                  (fun _ => true))
               (mkState (js "18446744073709551616") None None local)
               18446744073709551616).
      * discriminate.
      * reflexivity.
      * right. lia.
Defined.



(** C8, as the code has it.  The handler takes no reference time from
    its caller: it reads the host clock.  The clock reading reaches the
    [isValid] flag only: two hosts that differ in their clocks only
    (they format dates alike and their engines refuse the same numbers)
    leave the same error, and a record whose other fields are the same,
    whatever their clocks read; when their clocks read the same, the
    whole outcome is the same. *)
Theorem clock_reaches_only_the_flag (h1 h2 : Host) (st : State) :
  formatTimestamp h1 = formatTimestamp h2 ->
  BigInt_refuses h1 = BigInt_refuses h2 ->
  error (decodeId h1 st) = error (decodeId h2 st) /\
  inputId (decodeId h1 st) = inputId (decodeId h2 st) /\
  selectedTimezone (decodeId h1 st) = selectedTimezone (decodeId h2 st) /\
  option_map
    (fun r => (originalId r, decimalValue r, appId r, clusterId r,
               sequence r, timestamp r, formattedTimestamp r))
    (decodedId (decodeId h1 st))
  = option_map
      (fun r => (originalId r, decimalValue r, appId r, clusterId r,
                 sequence r, timestamp r, formattedTimestamp r))
      (decodedId (decodeId h2 st)) /\
  (Date_now h1 = Date_now h2 -> decodeId h1 st = decodeId h2 st).
Proof.
  intros Hfmt Hengine. unfold decodeId.
  destruct (trim (inputId st)) as [| c t] eqn:Ht.
  - repeat split; reflexivity.
  - assert (Hth : parseThrows h1 (c :: t) = parseThrows h2 (c :: t))
      by (unfold parseThrows, BigInt_throws; rewrite Hengine; reflexivity).
    rewrite Hth. destruct (parseThrows h2 (c :: t)).
    + repeat split; reflexivity.
    + destruct (parseInput (c :: t)) as [v |].
      * destruct ((v <? 0) || (maxInt64 <? v)).
        -- repeat split; reflexivity.
        -- cbn. unfold buildResult. cbn. rewrite Hfmt.
           repeat split; try reflexivity.
           intros Hnow. rewrite Hnow. reflexivity.
      * repeat split; reflexivity.
Qed.

Lemma clock_reaches_only_the_flag_witness :
  (formatTimestamp (mkHost 1451697426789 (fun _ _ => js "2016/01/02"))
   = formatTimestamp (mkHost 1451690256789 (fun _ _ => js "2016/01/02")) /\
   BigInt_refuses (mkHost 1451697426789 (fun _ _ => js "2016/01/02"))
   = BigInt_refuses (mkHost 1451690256789 (fun _ _ => js "2016/01/02"))) /\
  error (decodeId (mkHost 1451697426789 (fun _ _ => js "2016/01/02"))
           (mkState (js "1035630607911173") None None japan))
  = error (decodeId (mkHost 1451690256789 (fun _ _ => js "2016/01/02"))
             (mkState (js "1035630607911173") None None japan)).
Proof.
  split; [split; reflexivity |].
  exact (proj1 (clock_reaches_only_the_flag
                  (mkHost 1451697426789 (fun _ _ => js "2016/01/02"))
                  (mkHost 1451690256789 (fun _ _ => js "2016/01/02"))
                  (mkState (js "1035630607911173") None None japan)
                  eq_refl eq_refl)).
Defined.

(** C8, as the specification states it, fails: the same input text is
    decoded to a record flagged valid when the host clock reads thirty
    seconds before the time stamp, and to one flagged invalid when it
    reads two hours before; the caller passed nothing different. *)
Lemma clock_read_from_host_counterexample :
  option_map isValid
    (decodedId (decodeId (mkHost 1451697426789 (fun _ _ => js "2016/01/02"))
                  (mkState (js "1035630607911173") None None japan)))
  = Some true /\
  option_map isValid
    (decodedId (decodeId (mkHost 1451690256789 (fun _ _ => js "2016/01/02"))
                  (mkState (js "1035630607911173") None None japan)))
  = Some false /\
  decodeId (mkHost 1451697426789 (fun _ _ => js "2016/01/02"))
    (mkState (js "1035630607911173") None None japan)
  <> decodeId (mkHost 1451690256789 (fun _ _ => js "2016/01/02"))
       (mkState (js "1035630607911173") None None japan).
Proof.
  split; [vm_compute; reflexivity |].
  split; [vm_compute; reflexivity |].
  intros H. apply (f_equal (fun s => option_map isValid (decodedId s))) in H.
  vm_compute in H. discriminate H.
Qed.

(** C9.  When the input is empty or all whitespace, its trimmed form is
    empty and the handler stores the empty-input error and no record.
    The parsers play no part: on the empty text the dispatch would have
    returned the in-range value 0, and no record of it is stored. *)
Theorem empty_input_rejected (h : Host) (st : State) :
  inputId st = [] \/ forallb is_whitespace (inputId st) = true ->
  trim (inputId st) = [] /\
  decodeId h st
  = mkState (inputId st) None (Some MSG_EMPTY) (selectedTimezone st) /\
  parseInput (trim (inputId st)) = Some 0.
Proof.
  intros H.
  assert (Ht : trim (inputId st) = []).
  { apply trim_nil_iff. destruct H as [-> | H]; [reflexivity | exact H]. }
  split; [exact Ht |]. split.
  - now apply decodeId_empty.
  - rewrite Ht. reflexivity.
Qed.

Lemma empty_input_rejected_witness :
  (js "" = [] \/ forallb is_whitespace (js "") = true) /\
  (js "   " = [] \/ forallb is_whitespace (js "   ") = true) /\
  decodeId (mkHost 1700000000000 (fun _ _ => js "-"))
    (mkState (js "") None None japan)
  = mkState (js "") None (Some MSG_EMPTY) japan /\
  decodeId (mkHost 1700000000000 (fun _ _ => js "-"))
    (mkState (js "   ") None None japan)
  = mkState (js "   ") None (Some MSG_EMPTY) japan.
Proof.
  split; [left; reflexivity |].
  split; [right; reflexivity |].
  split.
  - exact (proj1 (proj2 (empty_input_rejected
                           (mkHost 1700000000000 (fun _ _ => js "-"))
                           (mkState (js "") None None japan)
                           (or_introl eq_refl)))).
  - exact (proj1 (proj2 (empty_input_rejected
                           (mkHost 1700000000000 (fun _ _ => js "-"))
                           (mkState (js "   ") None None japan)
                           (or_intror eq_refl)))).
Defined.

(** C10.  [decode36] on the empty string returns 0, not a failure, and
    so does the dispatch.  The handler itself never decodes an empty
    text: with the empty input it stores the empty-input error, and any
    record it stores comes from a non-empty trimmed text. *)
Theorem decode36_empty_is_zero :
  decode36 (js "") = Some 0 /\
  parseInput (js "") = Some 0 /\
  (forall (h : Host) (d : option DecodedId) (e : option jsstring)
          (tz : timezone),
      decodeId h (mkState (js "") d e tz)
      = mkState (js "") None (Some MSG_EMPTY) tz) /\
  (forall (h : Host) (st : State) (r : DecodedId),
      decodedId (decodeId h st) = Some r ->
      originalId r = trim (inputId st) /\ originalId r <> []).
Proof.
  split; [reflexivity |]. split; [reflexivity |]. split.
  - intros h d e tz. reflexivity.
  - intros h st r. unfold decodeId.
    destruct (trim (inputId st)) as [| c t] eqn:Ht; [discriminate |].
    destruct (parseThrows h (c :: t)); [discriminate |].
    destruct (parseInput (c :: t)) as [v |]; [| discriminate].
    destruct ((v <? 0) || (maxInt64 <? v)); [discriminate |].
    cbn [decodedId setError setDecodedId]. intros [= <-].
    cbn [buildResult originalId setError inputId]. rewrite Ht.
    split; [reflexivity | discriminate].
Qed.

Lemma decode36_empty_is_zero_witness :
  decodedId (decodeId (mkHost 1700000000000 (fun _ _ => js "-"))
               (mkState (js " 0 ") None None japan))
  = Some (buildResult (mkHost 1700000000000 (fun _ _ => js "-"))
            (mkState (js " 0 ") None None japan) 0) /\
  originalId (buildResult (mkHost 1700000000000 (fun _ _ => js "-"))
                (mkState (js " 0 ") None None japan) 0) <> [].
Proof.
  split; [reflexivity |].
  exact (proj2 (proj2 (proj2 (proj2 decode36_empty_is_zero))
                  (mkHost 1700000000000 (fun _ _ => js "-"))
                  (mkState (js " 0 ") None None japan)
                  _ eq_refl)).
Defined.




(* ================================================================== *)
(** ** What the handler stores *)
(* ================================================================== *)

Section Outcomes.

Lemma messages_distinct :
  MSG_EMPTY <> MSG_FORMAT /\ MSG_EMPTY <> MSG_RANGE /\
  MSG_FORMAT <> MSG_RANGE.
Proof. repeat split; intros H; vm_compute in H; discriminate H. Qed.

Lemma failed_message_distinct :
  MSG_FAILED <> MSG_EMPTY /\ MSG_FAILED <> MSG_FORMAT /\
  MSG_FAILED <> MSG_RANGE.
Proof. repeat split; intros H; vm_compute in H; discriminate H. Qed.

Lemma message_eq (m1 m2 : jsstring) : Some m1 = Some m2 -> m1 = m2.
Proof. intros H. injection H as H. exact H. Qed.

(** The error left for a non-empty trimmed text. *)
Lemma decodeId_error_nonempty (h : Host) (st : State) :
  trim (inputId st) <> [] ->
  error (decodeId h st)
  = if parseThrows h (trim (inputId st)) then Some MSG_FAILED
    else match parseInput (trim (inputId st)) with
         | None => Some MSG_FORMAT
         | Some v => if v <=? 2 ^ 63 - 1 then None else Some MSG_RANGE
         end.
Proof.
  intros Hne. destruct (parseThrows h (trim (inputId st))) eqn:Hth.
  { rewrite decodeId_thrown by assumption. reflexivity. }
  destruct (parseInput (trim (inputId st))) as [v |] eqn:Hp.
  - pose proof (parseInput_nonneg _ _ Hp) as H0.
    destruct (Z.leb_spec v (2 ^ 63 - 1)).
    + rewrite (decodeId_decoded h st v Hne Hp) by lia. reflexivity.
    + rewrite (decodeId_out_of_range h st v Hne Hth Hp) by lia.
      reflexivity.
  - rewrite decodeId_invalid by assumption. reflexivity.
Qed.

(** A stored record comes from a non-empty trimmed text whose parsed
    value passed the range check. *)
Lemma decodeId_record_inv (h : Host) (st : State) (r : DecodedId) :
  decodedId (decodeId h st) = Some r ->
  exists v : Z,
    trim (inputId st) <> [] /\
    parseInput (trim (inputId st)) = Some v /\
    0 <= v <= 2 ^ 63 - 1 /\
    r = buildResult h st v.
Proof.
  intros H. destruct (trim (inputId st)) as [| c t] eqn:Ht.
  - rewrite decodeId_empty in H by assumption. discriminate H.
  - assert (Hne : trim (inputId st) <> []) by (rewrite Ht; discriminate).
    rewrite <- Ht in *.
    destruct (parseThrows h (trim (inputId st))) eqn:Hth.
    { rewrite decodeId_thrown in H by assumption. discriminate H. }
    destruct (parseInput (trim (inputId st))) as [v |] eqn:Hp.
    + pose proof (parseInput_nonneg _ _ Hp) as H0.
      destruct (Z.le_gt_cases v (2 ^ 63 - 1)) as [Hle | Hgt].
      * rewrite (decodeId_decoded h st v Hne Hp) in H by lia.
        injection H as <-. exists v. repeat split; try assumption; lia.
      * rewrite (decodeId_out_of_range h st v Hne Hth Hp) in H by lia.
        discriminate H.
    + rewrite decodeId_invalid in H by assumption. discriminate H.
Qed.

Lemma decodeId_record_or_error_aux (h : Host) (st : State) :
  inputId (decodeId h st) = inputId st /\
  selectedTimezone (decodeId h st) = selectedTimezone st.
Proof.
  unfold decodeId. destruct (trim (inputId st)); [split; reflexivity |].
  destruct (parseThrows _ _); [split; reflexivity |].
  destruct (parseInput _); [| split; reflexivity].
  destruct (_ || _); split; reflexivity.
Qed.

End Outcomes.

(** X1.  Whatever the input, the handler leaves the text box and the time
    zone selector as they were, and stores either a record with no error,
    or no record with one of four messages: empty input, invalid format,
    out of range, or the message of the [catch] arm.  The four are
    pairwise different, and the last one is left exactly when the
    trimmed input is a digit string on which [BigInt(text)] throws. *)
Theorem decodeId_record_or_error (h : Host) (st : State) :
  inputId (decodeId h st) = inputId st /\
  selectedTimezone (decodeId h st) = selectedTimezone st /\
  ((exists r, decodedId (decodeId h st) = Some r /\
              error (decodeId h st) = None) \/
   (decodedId (decodeId h st) = None /\
    (error (decodeId h st) = Some MSG_EMPTY \/
     error (decodeId h st) = Some MSG_FORMAT \/
     error (decodeId h st) = Some MSG_RANGE \/
     error (decodeId h st) = Some MSG_FAILED))) /\
  (error (decodeId h st) = Some MSG_FAILED <->
   trim (inputId st) <> [] /\
   test_digits (trim (inputId st)) = true /\
   BigInt_throws h (trim (inputId st)) = true) /\
  (MSG_EMPTY <> MSG_FORMAT /\ MSG_EMPTY <> MSG_RANGE /\
   MSG_FORMAT <> MSG_RANGE) /\
  (MSG_FAILED <> MSG_EMPTY /\ MSG_FAILED <> MSG_FORMAT /\
   MSG_FAILED <> MSG_RANGE).
Proof.
  destruct failed_message_distinct as (Hfe & Hff & Hfr).
  split; [apply decodeId_record_or_error_aux |].
  split; [apply decodeId_record_or_error_aux |].
  split; [| split; [| split; [exact messages_distinct
                             | exact failed_message_distinct]]].
  - unfold decodeId. destruct (trim (inputId st)); [right; auto |].
    destruct (parseThrows _ _); [right; cbn; auto |].
    destruct (parseInput _); [| right; cbn; auto].
    destruct (_ || _); [right; cbn; auto |].
    left. eexists. split; reflexivity.
  - assert (Hsplit : forall t, parseThrows h t = true <->
                       test_digits t = true /\ BigInt_throws h t = true)
      by (intros t; unfold parseThrows; apply andb_true_iff).
    split.
    + intros H. destruct (trim (inputId st)) as [| c t] eqn:Ht.
      * rewrite decodeId_empty in H by assumption.
        apply message_eq in H. symmetry in H. contradiction.
      * rewrite <- Ht in *.
        assert (Hne : trim (inputId st) <> [])
          by (rewrite Ht; discriminate).
        split; [exact Hne |]. apply Hsplit.
        rewrite decodeId_error_nonempty in H by assumption.
        destruct (parseThrows h (trim (inputId st))); [reflexivity |].
        destruct (parseInput _) as [v |].
        -- destruct (v <=? 2 ^ 63 - 1); [discriminate H |].
           apply message_eq in H. symmetry in H. contradiction.
        -- apply message_eq in H. symmetry in H. contradiction.
    + intros (Hne & Hd & Hb). rewrite decodeId_thrown; [reflexivity | |].
      * exact Hne.
      * apply Hsplit. split; assumption.
Qed.

(** X2.  Every record the handler stores keeps the layout: its text is
    the trimmed input, which parses to its value; the value is within
    [0, 2^63 - 1]; the four fields are exact integers within their
    widths, the time stamp being the delta plus the epoch offset; and
    the value is the packing of the four fields. *)
Theorem stored_record_invariant (h : Host) (st : State) (r : DecodedId) :
  decodedId (decodeId h st) = Some r ->
  originalId r = trim (inputId st) /\
  parseInput (originalId r) = Some (decimalValue r) /\
  0 <= decimalValue r <= 2 ^ 63 - 1 /\
  formattedTimestamp r
  = formatTimestamp h (timestamp r) (selectedTimezone st) /\
  exists a c q d : Z,
    (0 <= a <= 127 /\ 0 <= c <= 3 /\ 0 <= q <= 16383 /\
     0 <= d <= 2 ^ 40 - 1) /\
    appId r = Finite a /\ clusterId r = Finite c /\
    sequence r = Finite q /\
    timestamp r = Finite (d + TIMESTAMP_OFFSET) /\
    decimalValue r = pack d q c a.
Proof.
  intros H. destruct (decodeId_record_inv h st r H)
    as (v & Hne & Hp & Hv & ->).
  cbn [buildResult originalId decimalValue formattedTimestamp appId
       clusterId sequence timestamp].
  repeat (split; [first [reflexivity | assumption | lia] |]).
  pose proof (timestampDelta_range v Hv) as Hd.
  pose proof (Z.mod_pos_bound v (2 ^ 7) ltac:(lia)) as Ha.
  pose proof (Z.mod_pos_bound (v / 2 ^ 7) (2 ^ 2) ltac:(lia)) as Hc.
  pose proof (Z.mod_pos_bound (v / 2 ^ 9) (2 ^ 14) ltac:(lia)) as Hs.
  exists (v mod 2 ^ 7), ((v / 2 ^ 7) mod 2 ^ 2),
    ((v / 2 ^ 9) mod 2 ^ 14), (v / 2 ^ 23).
  rewrite getAppId_exact, getClusterId_exact, getSequence_exact,
    (getTimestamp_exact v Hv).
  repeat split; try lia.
  rewrite pack_sum by lia.
  clear Ha Hc Hs Hd. Z.div_mod_to_equations. lia.
Qed.

Lemma stored_record_invariant_witness :
  decodedId (decodeId (mkHost 1700000000000 (fun _ _ => js "-"))
               (mkState (js " A73M4SRDHH ") None None japan))
  = Some (buildResult (mkHost 1700000000000 (fun _ _ => js "-"))
            (mkState (js " A73M4SRDHH ") None None japan)
            1035630607911173) /\
  exists a c q d : Z,
    appId (buildResult (mkHost 1700000000000 (fun _ _ => js "-"))
             (mkState (js " A73M4SRDHH ") None None japan)
             1035630607911173) = Finite a /\
    1035630607911173 = pack d q c a.
Proof.
  split; [reflexivity |].
  destruct (stored_record_invariant
              (mkHost 1700000000000 (fun _ _ => js "-"))
              (mkState (js " A73M4SRDHH ") None None japan)
              _ eq_refl)
    as (_ & _ & _ & _ & a & c & q & d & _ & Ha & _ & _ & _ & Hp).
  exists a, c, q, d. split; [exact Ha | exact Hp].
Defined.

(** X3.  The handler reads the text box and the time zone selector only:
    a record or an error left by an earlier run has no influence on the
    next one, and running the handler again on its own result (with the
    clock reading the same) changes nothing. *)
Theorem decodeId_forgets_previous_result (h : Host) (st : State) :
  (forall (d : option DecodedId) (e : option jsstring),
      decodeId h (mkState (inputId st) d e (selectedTimezone st))
      = decodeId h st) /\
  decodeId h (decodeId h st) = decodeId h st.
Proof.
  assert (Hforget :
            forall (d : option DecodedId) (e : option jsstring),
              decodeId h (mkState (inputId st) d e (selectedTimezone st))
              = decodeId h st).
  { intros d e. unfold decodeId. cbn [inputId].
    destruct (trim (inputId st)); [reflexivity |].
    destruct (parseThrows h _); [reflexivity |].
    destruct (parseInput _); [| reflexivity].
    destruct (_ || _); reflexivity. }
  split; [exact Hforget |].
  destruct (decodeId_record_or_error_aux h st) as (Hi & Hz).
  destruct (decodeId h st) as [i d e z] eqn:E. cbn in Hi, Hz. subst i z.
  apply Hforget.
Qed.

(* ================================================================== *)
(** ** Which error, for which text *)
(* ================================================================== *)

Ltac compare_step :=
  first
    [ match goal with
      | |- context [(?x <=? ?y)] => destruct (Z.leb_spec0 x y)
      end
    | match goal with
      | |- context [(?x <? ?y)] => destruct (Z.ltb_spec0 x y)
      end
    | match goal with
      | |- context [(?x =? ?y)] => destruct (Z.eqb_spec x y)
      end ].

Ltac by_comparisons :=
  repeat (compare_step; cbn [andb orb negb]; try lia).

Section ErrorKinds.

Lemma decodeDisabled_iff (st : State) :
  decodeDisabled st = true <-> trim (inputId st) = [].
Proof.
  unfold decodeDisabled. destruct (trim (inputId st)).
  - tauto.
  - split; discriminate.
Qed.

Lemma lower_unit_accepted (c : Z) :
  is_base36_input c = true ->
  exists u, lower_unit c = [u] /\ digit_of u <> -1.
Proof.
  unfold is_base36_input, lower_unit. intros H.
  destruct (Z.leb_spec 65 c), (Z.leb_spec c 90); cbn [andb].
  1: { exists (c + 32). split; [reflexivity |].
       unfold digit_of. by_comparisons. }
  all: destruct (Z.eqb_spec c 8490);
    [exists 107; split; [reflexivity | discriminate] |];
    destruct (Z.eqb_spec c 304); [subst c; discriminate H |];
    exists c; split; [reflexivity |];
    revert H; unfold digit_of; by_comparisons; discriminate.
Qed.

Lemma lower_unit_rejected (c : Z) (rest : jsstring) (result : Z) :
  is_base36_input c = false ->
  decode36_loop (lower_unit c ++ rest) result = None.
Proof.
  unfold is_base36_input, lower_unit. intros H.
  destruct (Z.leb_spec 65 c), (Z.leb_spec c 90); cbn [andb].
  1: { revert H. by_comparisons; discriminate. }
  all: destruct (Z.eqb_spec c 8490);
    [subst c; discriminate H |];
    destruct (Z.eqb_spec c 304); [reflexivity |];
    apply decode36_loop_reject;
    revert H; unfold digit_of; by_comparisons; discriminate.
Qed.




End ErrorKinds.

(** X4.  The Decode button is disabled exactly when the input is empty
    or all whitespace, and these are exactly the inputs for which the
    handler (reached through the Enter key) leaves the empty-input
    message. *)
Theorem empty_message_iff_blank (h : Host) (st : State) :
  (decodeDisabled st = true <->
   forallb is_whitespace (inputId st) = true) /\
  (error (decodeId h st) = Some MSG_EMPTY <-> decodeDisabled st = true).
Proof.
  split.
  - rewrite decodeDisabled_iff. apply trim_nil_iff.
  - rewrite decodeDisabled_iff. split.
    + intros H. destruct (trim (inputId st)) as [| c t] eqn:Ht;
        [reflexivity | exfalso].
      rewrite decodeId_error_nonempty in H by (rewrite Ht; discriminate).
      destruct messages_distinct as (Hef & Her & _).
      destruct failed_message_distinct as (Hfe & _ & _).
      destruct (parseThrows h _);
        [apply message_eq in H; contradiction |].
      destruct (parseInput _) as [v |].
      * destruct (v <=? 2 ^ 63 - 1); [discriminate H |].
        apply message_eq in H. symmetry in H. contradiction.
      * apply message_eq in H. symmetry in H. contradiction.
    + intros H. rewrite decodeId_empty by assumption. reflexivity.
Qed.


(* ================================================================== *)
(** ** Short texts and surrounding whitespace *)
(* ================================================================== *)

Section Bounds.

Lemma decode36_lower_bound (t : jsstring) (result v : Z) :
  0 <= result ->
  decode36_loop (toLowerCase t) result = Some v ->
  v < (result + 1) * 36 ^ Z.of_nat (List.length t).
Proof.
  unfold toLowerCase. revert result.
  induction t as [| c rest IH]; intros result Hr H.
  - cbn in H. injection H as <-. cbn. lia.
  - cbn [flat_map] in H.
    destruct (is_base36_input c) eqn:Hc.
    + destruct (lower_unit_accepted c Hc) as (u & Hu & Hd).
      rewrite Hu in H. cbn [app] in H.
      rewrite decode36_loop_step in H by assumption.
      pose proof (digit_of_range u) as Hrange.
      apply IH in H; [| lia].
      cbn [List.length]. rewrite Nat2Z.inj_succ, Z.pow_succ_r by lia.
      assert (0 < 36 ^ Z.of_nat (List.length rest))
        by (apply Z.pow_pos_nonneg; lia).
      nia.
    + rewrite lower_unit_rejected in H by assumption. discriminate H.
Qed.

Lemma decimal_fold_bound (s : jsstring) (acc : Z) :
  forallb is_digit s = true -> 0 <= acc ->
  fold_left (fun a c => a * 10 + (c - 48)) s acc
  < (acc + 1) * 10 ^ Z.of_nat (List.length s).
Proof.
  revert acc. induction s as [| c rest IH]; intros acc H Hacc.
  - cbn. lia.
  - cbn [forallb] in H. apply andb_true_iff in H as [Hc Hrest].
    unfold is_digit in Hc. apply andb_true_iff in Hc as [H1 H2].
    apply Z.leb_le in H1, H2.
    cbn [fold_left List.length].
    rewrite Nat2Z.inj_succ, Z.pow_succ_r by lia.
    specialize (IH (acc * 10 + (c - 48)) Hrest ltac:(lia)).
    assert (0 < 10 ^ Z.of_nat (List.length rest))
      by (apply Z.pow_pos_nonneg; lia).
    nia.
Qed.

Lemma parseInput_bound (text : jsstring) (v : Z) :
  parseInput text = Some v ->
  v < 36 ^ Z.of_nat (List.length text) /\
  (test_digits text = true -> v < 10 ^ Z.of_nat (List.length text)).
Proof.
  unfold parseInput. destruct (test_digits text) eqn:Ht.
  - intros [= <-].
    pose proof (decimal_fold_bound text 0
                  (test_digits_forallb _ Ht) ltac:(lia)) as Hb.
    fold (BigInt_of_string text) in Hb.
    assert (10 ^ Z.of_nat (List.length text)
            <= 36 ^ Z.of_nat (List.length text))
      by (apply Z.pow_le_mono_l; lia).
    split; [lia | intros _; lia].
  - intros H. apply decode36_lower_bound in H; [| lia].
    split; [lia | discriminate].
Qed.

End Bounds.

(** X6.  Length bounds the value: an input whose trimmed text has at
    most 12 code units, or is made of at most 18 decimal digits, is
    never refused as out of range. *)
Theorem short_input_never_out_of_range (h : Host) (st : State) :
  (List.length (trim (inputId st)) <= 12)%nat \/
  (test_digits (trim (inputId st)) = true /\
   (List.length (trim (inputId st)) <= 18)%nat) ->
  error (decodeId h st) <> Some MSG_RANGE.
Proof.
  intros Hlen. destruct messages_distinct as (Hef & Her & Hfr).
  destruct (trim (inputId st)) as [| c t] eqn:Ht.
  - rewrite decodeId_empty by assumption.
    intros H. apply message_eq in H. contradiction.
  - rewrite <- Ht in *.
    rewrite decodeId_error_nonempty by (rewrite Ht; discriminate).
    destruct failed_message_distinct as (_ & _ & Hxr).
    destruct (parseThrows h (trim (inputId st)));
      [intros H; apply message_eq in H; contradiction |].
    destruct (parseInput (trim (inputId st))) as [v |] eqn:Hp.
    + destruct (parseInput_bound _ _ Hp) as [H36 H10].
      destruct (Z.leb_spec v (2 ^ 63 - 1)) as [_ | Hbig]; [discriminate |].
      exfalso. destruct Hlen as [H12 | [Hd H18]].
      * assert (36 ^ Z.of_nat (List.length (trim (inputId st))) <= 36 ^ 12)
          by (apply Z.pow_le_mono_r; lia).
        lia.
      * specialize (H10 Hd).
        assert (10 ^ Z.of_nat (List.length (trim (inputId st))) <= 10 ^ 18)
          by (apply Z.pow_le_mono_r; lia).
        lia.
    + intros H. apply message_eq in H. contradiction.
Qed.

Lemma short_input_never_out_of_range_witness :
  ((List.length (trim (js " zzzzzzzzzzzz ")) <= 12)%nat \/
   (test_digits (trim (js " zzzzzzzzzzzz ")) = true /\
    (List.length (trim (js " zzzzzzzzzzzz ")) <= 18)%nat)) /\
  error (decodeId (mkHost 1700000000000 (fun _ _ => js "-"))
           (mkState (js " zzzzzzzzzzzz ") None None japan))
  <> Some MSG_RANGE.
Proof.
  assert (H : (List.length (trim (js " zzzzzzzzzzzz ")) <= 12)%nat)
    by (vm_compute; apply le_n).
  split; [left; exact H |].
  exact (short_input_never_out_of_range
           (mkHost 1700000000000 (fun _ _ => js "-"))
           (mkState (js " zzzzzzzzzzzz ") None None japan)
           (or_introl H)).
Defined.

Section Whitespace.

Lemma trimStart_app_blank (pre s : jsstring) :
  forallb is_whitespace pre = true -> trimStart (pre ++ s) = trimStart s.
Proof.
  induction pre as [| c pre IH]; cbn; [reflexivity |].
  intros H. apply andb_true_iff in H as [Hc Hpre].
  rewrite Hc. now apply IH.
Qed.

Lemma trimStart_app_kept (s post : jsstring) :
  trimStart s <> [] -> trimStart (s ++ post) = trimStart s ++ post.
Proof.
  induction s as [| c s IH]; cbn; [contradiction |].
  destruct (is_whitespace c); [exact IH | reflexivity].
Qed.

Lemma trimEnd_app_blank (s post : jsstring) :
  forallb is_whitespace post = true -> trimEnd (s ++ post) = trimEnd s.
Proof.
  intros H. unfold trimEnd. rewrite rev_app_distr.
  rewrite trimStart_app_blank by (rewrite forallb_rev; exact H).
  reflexivity.
Qed.

Lemma trimEnd_blank (post : jsstring) :
  forallb is_whitespace post = true -> trimEnd post = [].
Proof.
  intros H. unfold trimEnd.
  replace (trimStart (rev post)) with (@nil Z); [reflexivity |].
  symmetry. apply trimStart_nil_iff. rewrite forallb_rev. exact H.
Qed.

(** Whitespace around a text does not change its trimmed form. *)
Lemma trim_surrounded (pre s post : jsstring) :
  forallb is_whitespace pre = true ->
  forallb is_whitespace post = true ->
  trim (pre ++ s ++ post) = trim s.
Proof.
  intros Hpre Hpost. unfold trim.
  rewrite trimStart_app_blank by assumption.
  destruct (trimStart s) as [| c u] eqn:Hs.
  - assert (Hall : forallb is_whitespace (s ++ post) = true).
    { rewrite forallb_app, Hpost.
      apply trimStart_nil_iff in Hs. rewrite Hs. reflexivity. }
    apply trimStart_nil_iff in Hall. rewrite Hall. reflexivity.
  - rewrite trimStart_app_kept by (rewrite Hs; discriminate).
    rewrite Hs. now apply trimEnd_app_blank.
Qed.

Lemma trimStart_idem (l : jsstring) : trimStart (trimStart l) = trimStart l.
Proof.
  induction l as [| x l IH]; cbn; [reflexivity |].
  destruct (is_whitespace x) eqn:Hx; [exact IH |].
  cbn. rewrite Hx. reflexivity.
Qed.

Lemma trimStart_length (l : jsstring) :
  (List.length (trimStart l) <= List.length l)%nat.
Proof.
  induction l as [| x l IH]; cbn; [lia |].
  destruct (is_whitespace x); cbn; lia.
Qed.

Lemma trimStart_snoc_kept (m : jsstring) (x : Z) :
  is_whitespace x = false -> trimStart (m ++ [x]) = trimStart m ++ [x].
Proof.
  intros Hx. induction m as [| y m IH]; cbn; [rewrite Hx; reflexivity |].
  destruct (is_whitespace y); [exact IH | reflexivity].
Qed.

(** Trimming the end of a text that starts with a unit that is not
    whitespace leaves that start in place. *)
Lemma trimStart_fixed_trimEnd (w : jsstring) :
  trimStart w = w -> trimStart (trimEnd w) = trimEnd w.
Proof.
  destruct w as [| x l]; [reflexivity |]. cbn [trimStart].
  destruct (is_whitespace x) eqn:Hx.
  - intros Habs. pose proof (trimStart_length l) as Hlen.
    rewrite Habs in Hlen. cbn in Hlen. lia.
  - intros _. unfold trimEnd. cbn [rev].
    rewrite trimStart_snoc_kept, rev_app_distr by assumption.
    cbn. rewrite Hx. reflexivity.
Qed.

Lemma trimEnd_idem (l : jsstring) : trimEnd (trimEnd l) = trimEnd l.
Proof.
  unfold trimEnd. rewrite rev_involutive, trimStart_idem. reflexivity.
Qed.

Lemma trim_idem (s : jsstring) : trim (trim s) = trim s.
Proof.
  unfold trim.
  rewrite (trimStart_fixed_trimEnd (trimStart s) (trimStart_idem s)).
  apply trimEnd_idem.
Qed.

Lemma buildResult_reads_trimmed (h : Host) (st1 st2 : State) (v : Z) :
  trim (inputId st1) = trim (inputId st2) ->
  selectedTimezone st1 = selectedTimezone st2 ->
  buildResult h st1 v = buildResult h st2 v.
Proof. unfold buildResult. intros -> ->. reflexivity. Qed.

(** The record and the error depend on the text through its trimmed
    form. *)
Lemma decodeId_reads_trimmed (h : Host) (st1 st2 : State) :
  trim (inputId st1) = trim (inputId st2) ->
  selectedTimezone st1 = selectedTimezone st2 ->
  decodedId (decodeId h st1) = decodedId (decodeId h st2) /\
  error (decodeId h st1) = error (decodeId h st2).
Proof.
  intros Ht Hz. unfold decodeId. rewrite Ht.
  destruct (trim (inputId st2)) as [| c t] eqn:E; [split; reflexivity |].
  destruct (parseThrows h (c :: t)); [split; reflexivity |].
  destruct (parseInput (c :: t)) as [v |]; [| split; reflexivity].
  destruct (_ || _); [split; reflexivity |].
  cbn [decodedId error setError setDecodedId]. split; [| reflexivity].
  f_equal. apply buildResult_reads_trimmed; cbn [setError inputId
    selectedTimezone]; [congruence | exact Hz].
Qed.

End Whitespace.

(** X7.  Whitespace before and after the text is ignored: decoding the
    text with any whitespace put around it stores the same record and
    the same error; in particular the stored text is trimmed, and
    trimming twice is trimming once. *)
Theorem surrounding_whitespace_ignored
  (h : Host) (st : State) (pre post : jsstring) :
  forallb is_whitespace pre = true ->
  forallb is_whitespace post = true ->
  decodedId (decodeId h (setInputId (pre ++ inputId st ++ post) st))
  = decodedId (decodeId h st) /\
  error (decodeId h (setInputId (pre ++ inputId st ++ post) st))
  = error (decodeId h st) /\
  trim (trim (inputId st)) = trim (inputId st).
Proof.
  intros Hpre Hpost.
  destruct (decodeId_reads_trimmed h
              (setInputId (pre ++ inputId st ++ post) st) st)
    as [Hd He].
  - cbn [setInputId inputId]. now apply trim_surrounded.
  - reflexivity.
  - split; [exact Hd |]. split; [exact He |].
    apply trim_idem.
Qed.

Lemma surrounding_whitespace_ignored_witness :
  (forallb is_whitespace (js "  ") = true /\
   forallb is_whitespace [9; 12288] = true) /\
  decodedId (decodeId (mkHost 1700000000000 (fun _ _ => js "-"))
               (setInputId (js "  " ++ js "a1B2" ++ [9; 12288])
                  (mkState (js "a1B2") None None japan)))
  = decodedId (decodeId (mkHost 1700000000000 (fun _ _ => js "-"))
                 (mkState (js "a1B2") None None japan)).
Proof.
  split; [split; reflexivity |].
  exact (proj1 (surrounding_whitespace_ignored
                  (mkHost 1700000000000 (fun _ _ => js "-"))
                  (mkState (js "a1B2") None None japan)
                  (js "  ") [9; 12288] eq_refl eq_refl)).
Defined.

(* ================================================================== *)
(** ** The base-36 notation *)
(* ================================================================== *)

Section Notation36.

(** The loop sees a text through the digits of its units only. *)
Lemma decode36_loop_digits (s1 s2 : jsstring) (result : Z) :
  map digit_of s1 = map digit_of s2 ->
  decode36_loop s1 result = decode36_loop s2 result.
Proof.
  revert s2 result. induction s1 as [| c1 s1 IH]; intros [| c2 s2] result H;
    try discriminate H; [reflexivity |].
  cbn [map] in H. injection H as Hc Hs.
  cbn [decode36_loop]. rewrite Hc.
  destruct (_ || _); [reflexivity | now apply IH].
Qed.

Lemma digit_of_upper_unit (c : Z) : digit_of (upper_unit c) = digit_of c.
Proof.
  unfold upper_unit.
  destruct (Z.leb_spec 97 c), (Z.leb_spec c 122); cbn [andb];
    try reflexivity.
  unfold digit_of. by_comparisons.
Qed.

Lemma digit_of_lower_unit (c : Z) :
  is_ascii_unit c = true -> map digit_of (lower_unit c) = [digit_of c].
Proof.
  unfold is_ascii_unit, lower_unit. intros H.
  apply andb_true_iff in H as [H0 H127]. apply Z.leb_le in H0, H127.
  destruct (Z.leb_spec 65 c), (Z.leb_spec c 90); cbn [andb].
  1: { cbn [map]. f_equal. unfold digit_of. by_comparisons. }
  all: destruct (Z.eqb_spec c 8490); [lia |];
    destruct (Z.eqb_spec c 304); [lia | reflexivity].
Qed.

Lemma digits_toLowerCase (s : jsstring) :
  forallb is_ascii_unit s = true ->
  map digit_of (toLowerCase s) = map digit_of s.
Proof.
  unfold toLowerCase. induction s as [| c s IH]; cbn [forallb flat_map map];
    [reflexivity |].
  intros H. apply andb_true_iff in H as [Hc Hs].
  rewrite map_app, digit_of_lower_unit, IH by assumption. reflexivity.
Qed.

Lemma digits_toUpperCase (s : jsstring) :
  map digit_of (toUpperCase s) = map digit_of s.
Proof.
  unfold toUpperCase. rewrite map_map. apply map_ext.
  exact digit_of_upper_unit.
Qed.


Lemma decode36_loop_zeros (k : nat) (s : jsstring) :
  decode36_loop (repeat 48 k ++ s) 0 = decode36_loop s 0.
Proof. induction k as [| k IH]; [reflexivity | exact IH]. Qed.

Lemma decimal_fold_zeros (k : nat) (s : jsstring) :
  BigInt_of_string (repeat 48 k ++ s) = BigInt_of_string s.
Proof. induction k as [| k IH]; [reflexivity | exact IH]. Qed.

Lemma toLowerCase_zeros (k : nat) (s : jsstring) :
  toLowerCase (repeat 48 k ++ s) = repeat 48 k ++ toLowerCase s.
Proof.
  unfold toLowerCase. induction k as [| k IH]; [reflexivity |].
  cbn [repeat app flat_map]. rewrite IH. reflexivity.
Qed.

Lemma forallb_is_digit_zeros (k : nat) (s : jsstring) :
  forallb is_digit (repeat 48 k ++ s) = forallb is_digit s.
Proof. induction k as [| k IH]; [reflexivity | exact IH]. Qed.

End Notation36.

(** X8.  [decode36] does not tell the cases apart: on an ASCII text it
    returns the same for the text, for its lower-case form and for its
    upper-case form, so the lower-casing the handler applies before it
    changes nothing on such a text. *)
Theorem decode36_case_insensitive (s : jsstring) :
  forallb is_ascii_unit s = true ->
  decode36 (toLowerCase s) = decode36 s /\
  decode36 (toUpperCase s) = decode36 s.
Proof.
  intros H. unfold decode36. split.
  - apply decode36_loop_digits. now apply digits_toLowerCase.
  - apply decode36_loop_digits. apply digits_toUpperCase.
Qed.

Lemma decode36_case_insensitive_witness :
  forallb is_ascii_unit (js "a1B2c3D4e5F") = true /\
  decode36 (toLowerCase (js "a1B2c3D4e5F")) = decode36 (js "a1B2c3D4e5F") /\
  decode36 (toUpperCase (js "a1B2c3D4e5F")) = decode36 (js "a1B2c3D4e5F").
Proof.
  split; [reflexivity |].
  exact (decode36_case_insensitive (js "a1B2c3D4e5F") eq_refl).
Defined.



(** X10.  Leading zeros never change what the dispatch of the handler
    returns, in either notation: a text and the same text after any
    number of zeros parse alike (to the same value, or both not at
    all). *)
Theorem leading_zeros_ignored (k : nat) (s : jsstring) :
  parseInput (repeat 48 k ++ s) = parseInput s.
Proof.
  unfold parseInput. destruct s as [| c s].
  - destruct k as [| k]; [reflexivity |].
    replace (test_digits (repeat 48 (S k) ++ [])) with true
      by (symmetry; exact (forallb_is_digit_zeros (S k) [])).
    rewrite decimal_fold_zeros. reflexivity.
  - assert (Ht : test_digits (repeat 48 k ++ c :: s) = test_digits (c :: s)).
    { unfold test_digits. rewrite forallb_is_digit_zeros.
      destruct k; reflexivity. }
    rewrite Ht. destruct (test_digits (c :: s)).
    + now rewrite decimal_fold_zeros.
    + unfold decode36. rewrite toLowerCase_zeros. apply decode36_loop_zeros.
Qed.

Section Canonical.

Lemma decode36_loop_grows (s : jsstring) (result v : Z) :
  0 <= result -> decode36_loop s result = Some v -> result <= v.
Proof.
  revert result. induction s as [| c s IH]; intros result Hr H.
  - cbn in H. injection H as <-. lia.
  - pose proof (digit_of_range c).
    destruct (Z.eq_dec (digit_of c) (-1)) as [E | E].
    + rewrite decode36_loop_reject in H by assumption. discriminate H.
    + rewrite decode36_loop_step in H by assumption.
      apply IH in H; lia.
Qed.

Lemma decode36_snoc_inv (s : jsstring) (c n : Z) :
  decode36 (s ++ [c]) = Some n ->
  exists v, decode36 s = Some v /\ digit_of c <> -1 /\
            n = v * 36 + digit_of c.
Proof.
  unfold decode36. rewrite decode36_loop_app.
  destruct (decode36_loop s 0) as [v |]; [| discriminate].
  intros H. exists v. split; [reflexivity |].
  destruct (Z.eq_dec (digit_of c) (-1)) as [E | E].
  - rewrite decode36_loop_reject in H by assumption. discriminate H.
  - rewrite decode36_loop_step in H by assumption. cbn in H.
    injection H as <-. split; [exact E | reflexivity].
Qed.

Lemma digit_of_zero (c : Z) : digit_of c = 0 -> c = 48.
Proof. unfold digit_of. by_comparisons. Qed.

(** A text of two or more units without a leading zero is at least 1
    before its last unit. *)
Lemma no_leading_zero_positive (c : Z) (t : jsstring) (v : Z) :
  c <> 48 -> decode36 (c :: t) = Some v -> 1 <= v.
Proof.
  intros Hc H. unfold decode36 in H.
  pose proof (digit_of_range c).
  destruct (Z.eq_dec (digit_of c) (-1)) as [E | E].
  - rewrite decode36_loop_reject in H by assumption. discriminate H.
  - rewrite decode36_loop_step in H by assumption.
    assert (digit_of c <> 0) by (intros E0; now apply digit_of_zero in E0).
    apply decode36_loop_grows in H; lia.
Qed.

Lemma upper_unit_of_digit (c d : Z) :
  digit_of c = d -> d <> -1 -> upper_unit c = upper_unit (digit_char d).
Proof.
  intros <- Hd. pose proof (digit_of_range c) as Hr.
  rewrite upper_unit_digit_char by lia.
  revert Hd Hr. unfold digit_of, upper_unit. by_comparisons.
Qed.

(** What the printer emits is the upper-case form of every text without
    a leading zero that reads as the same number. *)
Lemma magnitude_digits_canonical (n : Z) :
  0 <= n ->
  forall s : jsstring,
    no_leading_zero s -> decode36 s = Some n ->
    toUpperCase (magnitude_digits 36 n) = toUpperCase s.
Proof.
  apply (magnitude_digits_ind 36 ltac:(lia)
           (fun n out => forall s, no_leading_zero s ->
                                   decode36 s = Some n ->
                                   toUpperCase out = toUpperCase s)).
  - intros d Hd s Hs H.
    destruct s as [| c0 t]; [contradiction |].
    destruct (exists_last (l := c0 :: t) ltac:(discriminate))
      as (s' & c & E).
    rewrite E in H. apply decode36_snoc_inv in H as (v & Hv & Hc & Hn).
    pose proof (decode36_nonneg _ _ Hv) as Hv0.
    pose proof (digit_of_range c) as Hr.
    destruct s' as [| c1 t'].
    + cbn in E. injection E as -> ->. cbn in Hv. injection Hv as <-.
      cbn [toUpperCase map]. f_equal. symmetry.
      apply upper_unit_of_digit; lia.
    + exfalso. cbn in E. injection E as -> ->.
      destruct Hs as [Hs | Hs]; [| now destruct t'].
      apply no_leading_zero_positive in Hv; [lia | exact Hs].
  - intros m out Hm IH s Hs H.
    destruct s as [| c0 t]; [contradiction |].
    destruct (exists_last (l := c0 :: t) ltac:(discriminate))
      as (s' & c & E).
    rewrite E in H |- *.
    apply decode36_snoc_inv in H as (v & Hv & Hc & Hn).
    pose proof (digit_of_range c) as Hr.
    assert (Hdiv : m / 36 = v /\ m mod 36 = digit_of c)
      by (subst m; clear Hm; Z.div_mod_to_equations; lia).
    destruct Hdiv as [Hq Hrem].
    unfold toUpperCase in *. rewrite !map_app. cbn [map]. f_equal.
    + apply IH; [| rewrite Hq; exact Hv].
      destruct s' as [| c1 t'].
      * cbn in Hv. injection Hv as <-. lia.
      * cbn in E. injection E as -> ->.
        destruct Hs as [Hs | Hs]; [left; exact Hs | now destruct t'].
    + f_equal. rewrite Hrem. symmetry. now apply upper_unit_of_digit.
Qed.

End Canonical.

(** X11.  [encodeToBase36] gives the canonical form: when a text without
    a leading zero is read by [decode36] as [v], the text shown for [v]
    is that text in upper case. *)
Theorem encodeToBase36_canonical (s : jsstring) (v : Z) :
  no_leading_zero s ->
  decode36 s = Some v ->
  encodeToBase36 v = toUpperCase s.
Proof.
  intros Hs H. pose proof (decode36_nonneg _ _ H) as H0.
  unfold encodeToBase36, BigInt_toString.
  destruct (Z.ltb_spec v 0); [lia |].
  now apply magnitude_digits_canonical.
Qed.

Lemma encodeToBase36_canonical_witness :
  (no_leading_zero (js "a73m4Srdhh") /\
   decode36 (js "a73m4Srdhh") = Some 1035630607911173) /\
  encodeToBase36 1035630607911173 = toUpperCase (js "a73m4Srdhh").
Proof.
  assert (Hs : no_leading_zero (js "a73m4Srdhh")) by (left; discriminate).
  split; [split; [exact Hs | reflexivity] |].
  exact (encodeToBase36_canonical (js "a73m4Srdhh") 1035630607911173
           Hs eq_refl).
Defined.

(** X12.  The text of a negative value starts with a minus sign, which
    [decode36] refuses: the round trip through base 36 holds for the
    non-negative values only. *)
Theorem encodeToBase36_negative (v : Z) :
  v < 0 ->
  (exists digits, encodeToBase36 v = 45 :: digits) /\
  decode36 (encodeToBase36 v) = None.
Proof.
  intros H. unfold encodeToBase36, BigInt_toString.
  destruct (Z.ltb_spec v 0); [| lia].
  split; [eexists; reflexivity | reflexivity].
Qed.

Lemma encodeToBase36_negative_witness :
  -71 < 0 /\ encodeToBase36 (-71) = js "-1Z" /\
  decode36 (encodeToBase36 (-71)) = None.
Proof.
  split; [lia |]. split; [reflexivity |].
  exact (proj2 (encodeToBase36_negative (-71) ltac:(lia))).
Defined.

(* ================================================================== *)
(** ** The printer, digit by digit *)
(* ================================================================== *)

Section PrinterSteps.

Variable radix : Z.
Hypothesis radix_gt_1 : 1 < radix.

(** Any fuel that covers the bits of [n] gives the same digits. *)
Lemma to_digits_fuel (f1 f2 : nat) (n : Z) :
  0 <= n < 2 ^ Z.of_nat (S f1) -> n < 2 ^ Z.of_nat (S f2) ->
  to_digits (S f1) radix n [] = to_digits (S f2) radix n [].
Proof.
  revert f2 n. induction f1 as [| f1 IH]; intros f2 n H1 H2.
  - assert (Hlt : n < radix) by (change (2 ^ Z.of_nat 1) with 2 in H1; lia).
    rewrite !to_digits_S. destruct (Z.ltb_spec n radix); [reflexivity | lia].
  - rewrite (to_digits_S radix (S f1)), (to_digits_S radix f2).
    destruct (Z.ltb_spec n radix) as [Hlt | Hge]; [reflexivity |].
    destruct f2 as [| f2];
      [change (2 ^ Z.of_nat 1) with 2 in H2; lia |].
    rewrite (to_digits_acc radix (S f1)), (to_digits_acc radix (S f2)).
    f_equal.
    rewrite (Nat2Z.inj_succ (S f1)), Z.pow_succ_r in H1 by lia.
    rewrite (Nat2Z.inj_succ (S f2)), Z.pow_succ_r in H2 by lia.
    assert (0 < 2 ^ Z.of_nat (S f1)) by (apply Z.pow_pos_nonneg; lia).
    assert (0 < 2 ^ Z.of_nat (S f2)) by (apply Z.pow_pos_nonneg; lia).
    apply IH.
    + split; [apply Z.div_pos; lia |].
      apply Z.div_lt_upper_bound; [lia | nia].
    + apply Z.div_lt_upper_bound; [lia | nia].
Qed.

Lemma magnitude_digits_small (n : Z) :
  0 <= n < radix -> magnitude_digits radix n = [digit_char n].
Proof.
  intros H. unfold magnitude_digits. rewrite to_digits_S.
  destruct (Z.ltb_spec n radix); [| lia].
  rewrite Z.mod_small by lia. reflexivity.
Qed.

Lemma magnitude_digits_step (n : Z) :
  radix <= n ->
  magnitude_digits radix n
  = magnitude_digits radix (n / radix) ++ [digit_char (n mod radix)].
Proof.
  intros H. unfold magnitude_digits.
  pose proof (Z.log2_spec n ltac:(lia)) as [Hlo Hhi].
  assert (Hlog : 1 <= Z.log2 n).
  { change 1 with (Z.log2 2). apply Z.log2_le_mono. lia. }
  assert (Hq : 1 <= n / radix).
  { apply Z.div_le_lower_bound; lia. }
  pose proof (Z.log2_spec (n / radix) ltac:(lia)) as [Hqlo Hqhi].
  pose proof (Z.log2_nonneg (n / radix)) as Hq0.
  destruct (Z.to_nat (Z.log2 n)) as [| k] eqn:Ek; [lia |].
  rewrite to_digits_S. destruct (Z.ltb_spec n radix); [lia |].
  rewrite to_digits_acc. f_equal.
  assert (Hk : Z.of_nat (S k) = Z.log2 n) by lia.
  apply to_digits_fuel.
  - rewrite Hk. split; [lia |].
    apply Z.div_lt_upper_bound; [lia |].
    rewrite Z.pow_succ_r in Hhi by lia.
    assert (0 < 2 ^ Z.log2 n) by (apply Z.pow_pos_nonneg; lia). nia.
  - rewrite Nat2Z.inj_succ, Z2Nat.id by lia. exact Hqhi.
Qed.

End PrinterSteps.

(* ================================================================== *)
(** ** Grouping by thousands *)
(* ================================================================== *)

Section Thousands.

Lemma strip_commas_replace (s : jsstring) :
  strip_commas (replace_thousands s) = strip_commas s.
Proof.
  unfold strip_commas. induction s as [| c s IH]; [reflexivity |].
  cbn [replace_thousands]. destruct (thousands_match c s); cbn [filter].
  - destruct (negb (c =? 44)); cbn; rewrite IH; reflexivity.
  - destruct (negb (c =? 44)); rewrite IH; reflexivity.
Qed.

Lemma strip_commas_digits (s : jsstring) :
  forallb is_digit s = true -> strip_commas s = s.
Proof.
  unfold strip_commas. induction s as [| c s IH]; [reflexivity |].
  cbn [forallb filter]. intros H. apply andb_true_iff in H as [Hc Hs].
  unfold is_digit in Hc. apply andb_true_iff in Hc as [H1 H2].
  apply Z.leb_le in H1, H2.
  destruct (Z.eqb_spec c 44); [lia |]. cbn. now rewrite IH.
Qed.

Lemma digit_run_digits (s t : jsstring) :
  forallb is_digit s = true ->
  digit_run (s ++ t) = (List.length s + digit_run t)%nat.
Proof.
  induction s as [| c s IH]; [reflexivity |].
  cbn [forallb app digit_run List.length]. intros H.
  apply andb_true_iff in H as [Hc Hs]. rewrite Hc, IH by assumption.
  reflexivity.
Qed.

Lemma digit_run_le (s : jsstring) : (digit_run s <= List.length s)%nat.
Proof.
  induction s as [| c s IH]; cbn; [lia |].
  destruct (is_digit c); lia.
Qed.

Lemma thousands_match_short (c : Z) (rest : jsstring) :
  (List.length rest < 3)%nat -> thousands_match c rest = false.
Proof.
  intros H. pose proof (digit_run_le rest) as Hr. unfold thousands_match.
  destruct (digit_run rest) as [| [| [| n]]]; cbn; try lia;
    now rewrite ?andb_false_r.
Qed.

Lemma replace_thousands_short (s : jsstring) :
  (List.length s <= 3)%nat -> replace_thousands s = s.
Proof.
  induction s as [| c s IH]; [reflexivity |].
  cbn [List.length replace_thousands]. intros H.
  rewrite thousands_match_short by lia. rewrite IH by lia. reflexivity.
Qed.

(** Three more digits after a run of digits put one comma before them
    and move no other. *)
Lemma replace_thousands_group (s : jsstring) (a b c : Z) :
  s <> [] -> forallb is_digit s = true ->
  is_digit a = true -> is_digit b = true -> is_digit c = true ->
  replace_thousands (s ++ [a; b; c])
  = replace_thousands s ++ [44; a; b; c].
Proof.
  intros Hne Hs Ha Hb Hc.
  assert (Hrun : digit_run [a; b; c] = 3%nat)
    by (cbn; rewrite Ha, Hb, Hc; reflexivity).
  induction s as [| x s IH]; [contradiction |].
  cbn [forallb] in Hs. apply andb_true_iff in Hs as [Hx Hs].
  cbn [app replace_thousands].
  destruct s as [| y s].
  - cbn [app]. unfold thousands_match at 1. rewrite Hx, Hrun. cbn [andb].
    rewrite (replace_thousands_short [a; b; c]) by (cbn; lia).
    rewrite thousands_match_short by (cbn; lia). reflexivity.
  - assert (Hm : thousands_match x ((y :: s) ++ [a; b; c])
                 = thousands_match x (y :: s)).
    { assert (Hlen : digit_run (y :: s) = List.length (y :: s)).
      { pose proof (digit_run_digits (y :: s) [] Hs) as E.
        rewrite app_nil_r in E. change (digit_run []) with O in E.
        rewrite Nat.add_0_r in E. exact E. }
      unfold thousands_match.
      rewrite (digit_run_digits (y :: s) [a; b; c] Hs), Hrun, Hlen.
      replace (List.length (y :: s) + 3)%nat
        with (List.length (y :: s) + 1 * 3)%nat by lia.
      rewrite Nat.Div0.mod_add. cbn [List.length].
      f_equal. }
    rewrite Hm, (IH ltac:(discriminate) Hs).
    destruct (thousands_match x (y :: s)); reflexivity.
Qed.

Lemma decimal_digits_are_digits (n : Z) :
  0 <= n ->
  magnitude_digits 10 n <> [] /\
  forallb is_digit (magnitude_digits 10 n) = true.
Proof.
  intros H. destruct (decimal_toString_roundtrip n H) as [Ht _].
  unfold BigInt_toString in Ht. destruct (Z.ltb_spec n 0); [lia |].
  split.
  - intros E. rewrite E in Ht. discriminate Ht.
  - now apply test_digits_forallb.
Qed.

Lemma decimal_last_three (n : Z) :
  1000 <= n ->
  magnitude_digits 10 n
  = magnitude_digits 10 (n / 1000)
    ++ [digit_char ((n / 100) mod 10); digit_char ((n / 10) mod 10);
        digit_char (n mod 10)].
Proof.
  intros H.
  rewrite (magnitude_digits_step 10 ltac:(lia) n) by lia.
  assert (H10 : 100 <= n / 10) by (apply Z.div_le_lower_bound; lia).
  rewrite (magnitude_digits_step 10 ltac:(lia) (n / 10)) by lia.
  rewrite Z.div_div by lia. change (10 * 10) with 100.
  assert (H100 : 10 <= n / 100) by (apply Z.div_le_lower_bound; lia).
  rewrite (magnitude_digits_step 10 ltac:(lia) (n / 100)) by lia.
  rewrite Z.div_div by lia. change (100 * 10) with 1000.
  rewrite <- !app_assoc. reflexivity.
Qed.

Lemma decimal_short (n : Z) :
  0 <= n < 1000 -> (List.length (magnitude_digits 10 n) <= 3)%nat.
Proof.
  intros H. destruct (Z.lt_ge_cases n 10) as [H1 | H1].
  - rewrite magnitude_digits_small by lia. cbn. lia.
  - rewrite (magnitude_digits_step 10 ltac:(lia) n) by lia.
    assert (0 <= n / 10 < 100)
      by (split; [apply Z.div_pos; lia
                 | apply Z.div_lt_upper_bound; lia]).
    destruct (Z.lt_ge_cases (n / 10) 10) as [H2 | H2].
    + rewrite magnitude_digits_small by lia. cbn. lia.
    + rewrite (magnitude_digits_step 10 ltac:(lia) (n / 10)) by lia.
      rewrite magnitude_digits_small; [cbn; lia |].
      split; [apply Z.div_pos; lia | apply Z.div_lt_upper_bound; lia].
Qed.

End Thousands.

(** X13.  [formatBigInt] only inserts commas: with the commas removed
    its text is [value.toString()], for every value; for a non-negative
    value that text reads back as the value. *)
Theorem formatBigInt_only_adds_commas (value : Z) :
  strip_commas (formatBigInt value)
  = strip_commas (BigInt_toString 10 value) /\
  (0 <= value ->
   strip_commas (formatBigInt value) = BigInt_toString 10 value /\
   BigInt_of_string (strip_commas (formatBigInt value)) = value).
Proof.
  unfold formatBigInt. split; [apply strip_commas_replace |].
  intros H. destruct (decimal_toString_roundtrip value H) as [Ht Hv].
  rewrite strip_commas_replace.
  rewrite strip_commas_digits by now apply test_digits_forallb.
  split; [reflexivity | exact Hv].
Qed.

Lemma formatBigInt_only_adds_commas_witness :
  0 <= 1035630607911173 /\
  formatBigInt 1035630607911173 = js "1,035,630,607,911,173" /\
  BigInt_of_string (strip_commas (formatBigInt 1035630607911173))
  = 1035630607911173.
Proof.
  split; [lia |]. split; [reflexivity |].
  exact (proj2 (proj2 (formatBigInt_only_adds_commas 1035630607911173)
                  ltac:(lia))).
Defined.

(** X14.  [formatBigInt] groups the digits by three from the right: a
    value below 1000 is printed as it is; a value from 1000 on is the
    grouped text of its thousands, a comma, and its last three digits;
    a negative value is a minus sign before the grouped text of its
    magnitude. *)
Theorem formatBigInt_groups_of_three (value : Z) :
  (0 <= value < 1000 -> formatBigInt value = BigInt_toString 10 value) /\
  (1000 <= value ->
   formatBigInt value
   = formatBigInt (value / 1000)
     ++ [44; digit_char ((value / 100) mod 10);
         digit_char ((value / 10) mod 10); digit_char (value mod 10)]) /\
  (value < 0 -> formatBigInt value = 45 :: formatBigInt (- value)).
Proof.
  unfold formatBigInt, BigInt_toString. split; [| split].
  - intros H. destruct (Z.ltb_spec value 0); [lia |].
    apply replace_thousands_short. now apply decimal_short.
  - intros H. destruct (Z.ltb_spec value 0); [lia |].
    assert (Hq : 1 <= value / 1000) by (apply Z.div_le_lower_bound; lia).
    destruct (Z.ltb_spec (value / 1000) 0); [lia |].
    rewrite decimal_last_three by assumption.
    destruct (decimal_digits_are_digits (value / 1000) ltac:(lia))
      as [Hne Hd].
    apply replace_thousands_group; try assumption;
      apply is_digit_digit_char; apply Z.mod_pos_bound; lia.
  - intros H. destruct (Z.ltb_spec value 0); [| lia].
    destruct (Z.ltb_spec (- value) 0); [lia |]. reflexivity.
Qed.

Lemma formatBigInt_groups_of_three_witness :
  (0 <= 999 < 1000 /\ 1000 <= 1234567 /\ -1234567 < 0) /\
  formatBigInt 999 = js "999" /\
  formatBigInt 1234567 = formatBigInt 1234 ++ js ",567" /\
  formatBigInt (-1234567) = js "-1,234,567".
Proof.
  split; [lia |].
  split; [exact (proj1 (formatBigInt_groups_of_three 999) ltac:(lia)) |].
  split.
  - exact (proj1 (proj2 (formatBigInt_groups_of_three 1234567))
             ltac:(lia)).
  - exact (proj2 (proj2 (formatBigInt_groups_of_three (-1234567)))
             ltac:(lia)).
Defined.

(* ================================================================== *)
(** ** The bit strings *)
(* ================================================================== *)

Section BitStrings.

Lemma binary_fold_shift (s : jsstring) (acc : Z) :
  fold_left (fun a c => a * 2 + (c - 48)) s acc
  = acc * 2 ^ Z.of_nat (List.length s) + binary_value s.
Proof.
  unfold binary_value. revert acc.
  induction s as [| c s IH]; intros acc.
  - cbn. lia.
  - cbn [fold_left List.length].
    rewrite (IH (acc * 2 + (c - 48))), (IH (0 * 2 + (c - 48))).
    rewrite Nat2Z.inj_succ, Z.pow_succ_r by lia. ring.
Qed.

Lemma binary_value_app (s t : jsstring) :
  binary_value (s ++ t)
  = binary_value s * 2 ^ Z.of_nat (List.length t) + binary_value t.
Proof.
  unfold binary_value at 1. rewrite fold_left_app.
  apply binary_fold_shift.
Qed.

Lemma binary_value_zeros (k : nat) (s : jsstring) :
  binary_value (repeat 48 k ++ s) = binary_value s.
Proof. induction k as [| k IH]; [reflexivity | exact IH]. Qed.

Lemma is_bit_zeros (k : nat) (s : jsstring) :
  forallb is_bit (repeat 48 k ++ s) = forallb is_bit s.
Proof. induction k as [| k IH]; [reflexivity | exact IH]. Qed.

(** The binary digits of a magnitude: bits only, reading back as the
    magnitude, and no more of them than a width that holds it. *)
Lemma binary_digits (n : Z) :
  0 <= n ->
  forallb is_bit (magnitude_digits 2 n) = true /\
  binary_value (magnitude_digits 2 n) = n /\
  forall w : nat, (1 <= w)%nat -> n < 2 ^ Z.of_nat w ->
                  (List.length (magnitude_digits 2 n) <= w)%nat.
Proof.
  apply (magnitude_digits_ind 2 ltac:(lia)
           (fun n s =>
              forallb is_bit s = true /\ binary_value s = n /\
              forall w : nat, (1 <= w)%nat -> n < 2 ^ Z.of_nat w ->
                              (List.length s <= w)%nat)).
  - intros d Hd. assert (Hc : d = 0 \/ d = 1) by lia.
    destruct Hc as [-> | ->]; repeat split; cbn; intros; lia.
  - intros m s Hm (Hbits & Hval & Hlen).
    pose proof (Z.mod_pos_bound m 2 ltac:(lia)) as Hr.
    assert (Hd : digit_char (m mod 2) = 48 + m mod 2)
      by (unfold digit_char; destruct (Z.ltb_spec (m mod 2) 10); lia).
    repeat split.
    + rewrite forallb_app, Hbits, Hd. cbn [forallb andb]. unfold is_bit.
      assert (Hc : m mod 2 = 0 \/ m mod 2 = 1) by lia.
      destruct Hc as [-> | ->]; reflexivity.
    + rewrite binary_value_app, Hval, Hd.
      change (binary_value [48 + m mod 2]) with (0 * 2 + (48 + m mod 2 - 48)).
      change (2 ^ Z.of_nat (List.length [48 + m mod 2])) with 2.
      pose proof (Z.div_mod m 2 ltac:(lia)). lia.
    + intros w Hw Hlt. rewrite length_app. cbn [List.length].
      destruct w as [| [| w]]; [lia | cbn in Hlt; lia |].
      specialize (Hlen (S w) ltac:(lia)).
      rewrite (Nat2Z.inj_succ (S w)), Z.pow_succ_r in Hlt by lia.
      assert (m / 2 < 2 ^ Z.of_nat (S w))
        by (apply Z.div_lt_upper_bound; lia).
      specialize (Hlen ltac:(assumption)). lia.
Qed.

(** A field below [2^w], printed in base 2 and padded to [w] units. *)
Lemma padded_bits (w : nat) (n : Z) :
  (1 <= w)%nat -> 0 <= n < 2 ^ Z.of_nat w ->
  List.length (padStart w 48 (BigInt_toString 2 n)) = w /\
  forallb is_bit (padStart w 48 (BigInt_toString 2 n)) = true /\
  binary_value (padStart w 48 (BigInt_toString 2 n)) = n.
Proof.
  intros Hw Hn. unfold BigInt_toString, padStart.
  destruct (Z.ltb_spec n 0); [lia |].
  destruct (binary_digits n ltac:(lia)) as (Hbits & Hval & Hlen).
  specialize (Hlen w Hw ltac:(lia)).
  repeat split.
  - rewrite length_app, repeat_length. lia.
  - rewrite is_bit_zeros. exact Hbits.
  - rewrite binary_value_zeros. exact Hval.
Qed.

End BitStrings.

(** X15.  For every record the handler stores, the four bit strings of
    the structure panel have 40, 14, 2 and 7 units, all of them 0 or 1,
    and set side by side they are the value of the record written in
    63 binary digits. *)
Theorem bit_strings_spell_the_value (h : Host) (st : State) (r : DecodedId) :
  decodedId (decodeId h st) = Some r ->
  List.length (bitValueTimestamp r) = 40%nat /\
  List.length (bitValueSequence r) = 14%nat /\
  List.length (bitValueCluster r) = 2%nat /\
  List.length (bitValueApp r) = 7%nat /\
  forallb is_bit (bitValueTimestamp r ++ bitValueSequence r
                  ++ bitValueCluster r ++ bitValueApp r) = true /\
  binary_value (bitValueTimestamp r ++ bitValueSequence r
                ++ bitValueCluster r ++ bitValueApp r)
  = decimalValue r.
Proof.
  intros H. destruct (decodeId_record_inv h st r H)
    as (v & _ & _ & Hv & ->).
  unfold bitValueTimestamp, bitValueSequence, bitValueCluster, bitValueApp.
  cbn [buildResult decimalValue sequence clusterId appId].
  rewrite getAppId_exact, getClusterId_exact, getSequence_exact,
    shiftr_BITS012.
  cbn [Number_toString].
  pose proof (timestampDelta_range v Hv) as Hd.
  pose proof (Z.mod_pos_bound v (2 ^ 7) ltac:(lia)) as Ha.
  pose proof (Z.mod_pos_bound (v / 2 ^ 7) (2 ^ 2) ltac:(lia)) as Hc.
  pose proof (Z.mod_pos_bound (v / 2 ^ 9) (2 ^ 14) ltac:(lia)) as Hs.
  assert (Bt : 0 <= v / 2 ^ 23 < 2 ^ Z.of_nat 40)
    by (change (Z.of_nat 40) with 40; lia).
  assert (Bs : 0 <= (v / 2 ^ 9) mod 2 ^ 14 < 2 ^ Z.of_nat 14)
    by (change (Z.of_nat 14) with 14; lia).
  assert (Bc : 0 <= (v / 2 ^ 7) mod 2 ^ 2 < 2 ^ Z.of_nat 2)
    by (change (Z.of_nat 2) with 2; lia).
  assert (Ba : 0 <= v mod 2 ^ 7 < 2 ^ Z.of_nat 7)
    by (change (Z.of_nat 7) with 7; lia).
  apply (padded_bits 40 _ ltac:(lia)) in Bt as (Lt & Bt & Vt).
  apply (padded_bits 14 _ ltac:(lia)) in Bs as (Ls & Bs & Vs).
  apply (padded_bits 2 _ ltac:(lia)) in Bc as (Lc & Bc & Vc).
  apply (padded_bits 7 _ ltac:(lia)) in Ba as (La & Ba & Va).
  assert (Hslice : slice0 40 (padStart 40 48 (BigInt_toString 2 (v / 2 ^ 23)))
                   = padStart 40 48 (BigInt_toString 2 (v / 2 ^ 23))).
  { unfold slice0. apply firstn_all2. rewrite Lt. lia. }
  rewrite Hslice.
  repeat (split; [assumption |]). split.
  - rewrite !forallb_app, Bt, Bs, Bc, Ba. reflexivity.
  - rewrite !binary_value_app, Vt, Vs, Vc, Va.
    rewrite !length_app, Ls, Lc, La.
    change (Z.of_nat (14 + (2 + 7))) with 23.
    change (Z.of_nat (2 + 7)) with 9. change (Z.of_nat 7) with 7.
    clear - Hv. Z.div_mod_to_equations. lia.
Qed.

Lemma bit_strings_spell_the_value_witness :
  decodedId (decodeId (mkHost 1700000000000 (fun _ _ => js "-"))
               (mkState (js "1035630607911173") None None japan))
  = Some (buildResult (mkHost 1700000000000 (fun _ _ => js "-"))
            (mkState (js "1035630607911173") None None japan)
            1035630607911173) /\
  List.length
    (bitValueTimestamp
       (buildResult (mkHost 1700000000000 (fun _ _ => js "-"))
          (mkState (js "1035630607911173") None None japan)
          1035630607911173)) = 40%nat.
Proof.
  split; [reflexivity |].
  exact (proj1 (bit_strings_spell_the_value
                  (mkHost 1700000000000 (fun _ _ => js "-"))
                  (mkState (js "1035630607911173") None None japan)
                  _ eq_refl)).
Defined.

(* ================================================================== *)
(** ** The time zone badge and the Clear button *)
(* ================================================================== *)

(** X16.  Changing the time zone after a decode gives the state that
    decoding with that time zone selected gives (the clock reading the
    same): only the formatted date of the record is redone.  Clicking
    the badge twice after a decode brings the decoded state back. *)
Theorem timezone_change_commutes_with_decode (h : Host) (st : State) :
  (forall tz : timezone,
      handleTimezoneChange h tz (decodeId h st)
      = decodeId h (setSelectedTimezone tz st)) /\
  timezoneBadgeClick h (timezoneBadgeClick h (decodeId h st))
  = decodeId h st.
Proof.
  assert (Hcomm : forall (s : State) (tz : timezone),
             handleTimezoneChange h tz (decodeId h s)
             = decodeId h (setSelectedTimezone tz s)).
  { intros s tz. unfold handleTimezoneChange, decodeId.
    cbn [setSelectedTimezone inputId].
    destruct (trim (inputId s)); [reflexivity |].
    destruct (parseThrows h _); [reflexivity |].
    destruct (parseInput _); [| reflexivity].
    destruct (_ || _); reflexivity. }
  split; [apply Hcomm |].
  unfold timezoneBadgeClick.
  destruct (decodeId_record_or_error_aux h st) as [_ Hz].
  rewrite Hz, Hcomm.
  destruct (decodeId_record_or_error_aux h
              (setSelectedTimezone
                 (match selectedTimezone st with
                  | japan => local | local => japan end) st)) as [_ Hz'].
  rewrite Hz', Hcomm. cbn [setSelectedTimezone selectedTimezone].
  destruct st as [i d e z]. cbn [inputId decodedId error selectedTimezone].
  destruct z; reflexivity.
Qed.

(** The Clear button empties the text box and drops the record and the
    error, keeping the time zone; after it the Decode button is
    disabled, and the handler, if run, leaves the empty-input message
    and no record. *)
Lemma clearAll_then_decode (h : Host) (st : State) :
  clearAll st = mkState [] None None (selectedTimezone st) /\
  decodeDisabled (clearAll st) = true /\
  decodeId h (clearAll st)
  = mkState [] None (Some MSG_EMPTY) (selectedTimezone st).
Proof. repeat split. Qed.

(* ================================================================== *)
(** ** The plausibility flag and the clock *)
(* ================================================================== *)

(** X17.  The flag never turns off as the clock advances: an input
    decoded to a record flagged valid is decoded to a record flagged
    valid at every later clock reading.  And a value below 2^23, whose
    time stamp is the epoch offset itself, is never flagged valid. *)
Theorem plausibility_and_the_clock
  (h1 h2 : Host) (st : State) (r1 : DecodedId) :
  decodedId (decodeId h1 st) = Some r1 ->
  (Date_now h1 <= Date_now h2 -> isValid r1 = true ->
   exists r2, decodedId (decodeId h2 st) = Some r2 /\ isValid r2 = true) /\
  (decimalValue r1 < 2 ^ 23 -> isValid r1 = false).
Proof.
  intros H. destruct (decodeId_record_inv h1 st r1 H)
    as (v & Hne & Hp & Hv & ->).
  pose proof (timestampDelta_range v Hv) as Hd.
  assert (Hflag : forall h, isValid (buildResult h st v)
                  = (TIMESTAMP_OFFSET <? v / 2 ^ 23 + TIMESTAMP_OFFSET)
                    && (v / 2 ^ 23 + TIMESTAMP_OFFSET
                        <=? Date_now h + 60000)).
  { intros h. cbn [buildResult isValid]. rewrite (getTimestamp_exact v Hv).
    apply isValidTimestamp_exact. unfold TIMESTAMP_OFFSET. lia. }
  split.
  - intros Hnow Hval. exists (buildResult h2 st v).
    rewrite (decodeId_decoded h2 st v Hne Hp Hv).
    split; [reflexivity |].
    rewrite Hflag in Hval |- *.
    apply andb_true_iff in Hval as [Ha Hb]. rewrite Ha. cbn [andb].
    apply Z.leb_le in Hb. apply Z.leb_le. lia.
  - cbn [buildResult decimalValue]. intros Hsmall.
    rewrite Hflag. rewrite (Z.div_small v (2 ^ 23)) by lia.
    rewrite Z.ltb_irrefl. reflexivity.
Qed.

Lemma plausibility_and_the_clock_witness :
  decodedId (decodeId (mkHost 1451697426789 (fun _ _ => js "-"))
               (mkState (js "1035630607911173") None None japan))
  = Some (buildResult (mkHost 1451697426789 (fun _ _ => js "-"))
            (mkState (js "1035630607911173") None None japan)
            1035630607911173) /\
  1451697426789 <= 1700000000000 /\
  exists r2,
    decodedId (decodeId (mkHost 1700000000000 (fun _ _ => js "-"))
                 (mkState (js "1035630607911173") None None japan))
    = Some r2 /\ isValid r2 = true.
Proof.
  split; [reflexivity |]. split; [lia |].
  exact (proj1 (plausibility_and_the_clock
                  (mkHost 1451697426789 (fun _ _ => js "-"))
                  (mkHost 1700000000000 (fun _ _ => js "-"))
                  (mkState (js "1035630607911173") None None japan)
                  _ eq_refl)
           ltac:(cbn; lia) eq_refl).
Defined.

(** X18.  The three masked getters are within their widths for every
    BigInt, negative ones and ones above 2^63 - 1 included.  The time
    stamp is not masked: for a value from 2^63 on (below 2^75, where
    the conversion to Number is still exact) its delta is 2^40 or
    more, so only the range check of the handler keeps the delta within
    40 bits. *)
Theorem getters_on_any_bigint (id : Z) :
  (exists a c q : Z,
      getAppId id = Finite a /\ getClusterId id = Finite c /\
      getSequence id = Finite q /\
      0 <= a <= 127 /\ 0 <= c <= 3 /\ 0 <= q <= 16383) /\
  (2 ^ 63 <= id < 2 ^ 75 ->
   exists d : Z, getTimestamp id = Finite (d + TIMESTAMP_OFFSET) /\
                 d = id / 2 ^ 23 /\ 2 ^ 40 <= d).
Proof.
  split.
  - pose proof (Z.mod_pos_bound id (2 ^ 7) ltac:(lia)) as Ha.
    pose proof (Z.mod_pos_bound (id / 2 ^ 7) (2 ^ 2) ltac:(lia)) as Hc.
    pose proof (Z.mod_pos_bound (id / 2 ^ 9) (2 ^ 14) ltac:(lia)) as Hs.
    exists (id mod 2 ^ 7), ((id / 2 ^ 7) mod 2 ^ 2),
      ((id / 2 ^ 9) mod 2 ^ 14).
    rewrite getAppId_exact, getClusterId_exact, getSequence_exact.
    repeat split; lia.
  - intros H. exists (id / 2 ^ 23).
    assert (Hd : 2 ^ 40 <= id / 2 ^ 23 < 2 ^ 52).
    { split; [apply Z.div_le_lower_bound; lia
             | apply Z.div_lt_upper_bound; lia]. }
    split; [| split; [reflexivity | lia]].
    unfold getTimestamp. rewrite shiftr_BITS012.
    rewrite Number_small by lia.
    apply num_add_small. unfold TIMESTAMP_OFFSET. lia.
Qed.

Lemma getters_on_any_bigint_witness :
  2 ^ 63 <= 2 ^ 63 + 5 < 2 ^ 75 /\
  getAppId (-1) = Finite 127 /\
  exists d : Z,
    getTimestamp (2 ^ 63 + 5) = Finite (d + TIMESTAMP_OFFSET) /\
    2 ^ 40 <= d.
Proof.
  split; [lia |]. split; [reflexivity |].
  destruct (proj2 (getters_on_any_bigint (2 ^ 63 + 5)) ltac:(lia))
    as (d & Ht & _ & Hd).
  exists d. split; assumption.
Defined.

(* ================================================================== *)
(** ** Pasting the displayed texts back *)
(* ================================================================== *)

Section PasteBack.

Lemma trim_fixed (s : jsstring) :
  forallb (fun c => negb (is_whitespace c)) s = true -> trim s = s.
Proof.
  assert (Hstart : forall l,
             forallb (fun c => negb (is_whitespace c)) l = true ->
             trimStart l = l).
  { intros [| c l]; [reflexivity |]. cbn [forallb trimStart]. intros H.
    apply andb_true_iff in H as [Hc _].
    destruct (is_whitespace c); [discriminate Hc | reflexivity]. }
  intros H. unfold trim, trimEnd.
  rewrite (Hstart s H), (Hstart (rev s)) by (rewrite forallb_rev; exact H).
  apply rev_involutive.
Qed.

Lemma is_upper36_not_whitespace (c : Z) :
  is_upper36 c = true -> negb (is_whitespace c) = true.
Proof.
  unfold is_upper36, is_whitespace. intros H. revert H.
  by_comparisons; discriminate.
Qed.

Lemma is_upper36_ascii (c : Z) :
  is_upper36 c = true -> is_ascii_unit c = true.
Proof.
  unfold is_upper36, is_ascii_unit. intros H. revert H.
  by_comparisons; discriminate.
Qed.

Lemma is_digit_upper36 (c : Z) : is_digit c = true -> is_upper36 c = true.
Proof. unfold is_digit, is_upper36. intros ->. reflexivity. Qed.

Lemma forallb_impl {A} (p q : A -> bool) (l : list A) :
  (forall x, p x = true -> q x = true) ->
  forallb p l = true -> forallb q l = true.
Proof.
  intros Hpq H. apply forallb_forall. intros x Hin.
  rewrite forallb_forall in H. auto.
Qed.

(** Reading digits in base 10 or in base 36: from a lower start the
    decimal reading stays strictly below. *)
Lemma decimal_below_base36 (s : jsstring) (a b : Z) :
  forallb is_digit s = true -> 0 <= a < b ->
  fold_left (fun x c => x * 10 + (c - 48)) s a < accumulate36 s b.
Proof.
  unfold accumulate36. revert a b.
  induction s as [| c s IH]; intros a b H Hab; [cbn; lia |].
  cbn [forallb] in H. apply andb_true_iff in H as [Hc Hs].
  cbn [fold_left]. rewrite (digit_of_digit c Hc).
  unfold is_digit in Hc. apply andb_true_iff in Hc as [H1 H2].
  apply Z.leb_le in H1, H2.
  apply IH; [exact Hs | lia].
Qed.

Lemma decimal_reading_smaller (s : jsstring) :
  forallb is_digit s = true -> 10 <= accumulate36 s 0 ->
  BigInt_of_string s < accumulate36 s 0.
Proof.
  unfold BigInt_of_string, accumulate36.
  induction s as [| c s IH]; [cbn; lia |].
  cbn [forallb]. intros H Hv. apply andb_true_iff in H as [Hc Hs].
  cbn [fold_left] in Hv |- *. rewrite (digit_of_digit c Hc) in Hv |- *.
  unfold is_digit in Hc. apply andb_true_iff in Hc as [H1 H2].
  apply Z.leb_le in H1, H2.
  destruct (Z.eq_dec c 48) as [-> | Hnz].
  - apply IH; assumption.
  - destruct s as [| c' s]; [cbn in Hv; lia |].
    cbn [forallb] in Hs. apply andb_true_iff in Hs as [Hc' Hs].
    cbn [fold_left]. rewrite (digit_of_digit c' Hc').
    apply (decimal_below_base36 s); [exact Hs |].
    unfold is_digit in Hc'. apply andb_true_iff in Hc' as [H3 H4].
    apply Z.leb_le in H3, H4. lia.
Qed.

End PasteBack.

(** X19.  Pasting the displayed base-36 text back: the text has no
    whitespace to trim; when it holds a letter the dispatch reads it
    back as the value; when it is all digits and the value is 10 or
    more, the dispatch takes it for a decimal number and reads a
    smaller value. *)
Theorem base36_text_pasted_back (v : Z) :
  0 <= v ->
  trim (encodeToBase36 v) = encodeToBase36 v /\
  (test_digits (encodeToBase36 v) = false ->
   parseInput (encodeToBase36 v) = Some v) /\
  (test_digits (encodeToBase36 v) = true -> 10 <= v ->
   exists u, parseInput (encodeToBase36 v) = Some u /\ u < v).
Proof.
  intros H.
  pose proof (encodeToBase36_upper v H) as Hup.
  pose proof (decode36_encodeToBase36 v H) as Hdec.
  split; [| split].
  - apply trim_fixed.
    exact (forallb_impl _ _ _ is_upper36_not_whitespace Hup).
  - intros Ht. unfold parseInput. rewrite Ht. rewrite <- Hdec.
    apply decode36_loop_digits, digits_toLowerCase.
    exact (forallb_impl _ _ _ is_upper36_ascii Hup).
  - intros Ht Hv. unfold parseInput. rewrite Ht.
    exists (BigInt_of_string (encodeToBase36 v)). split; [reflexivity |].
    pose proof (test_digits_forallb _ Ht) as Hd.
    unfold decode36 in Hdec.
    rewrite (decode36_loop_accepts _ 0 (digits_accepted _ Hd)) in Hdec.
    injection Hdec as Hacc.
    rewrite <- Hacc at 2. apply decimal_reading_smaller; [exact Hd | lia].
Qed.

Lemma base36_text_pasted_back_witness :
  (0 <= 1035630607911173 /\
   test_digits (encodeToBase36 1035630607911173) = false /\
   0 <= 36 /\ test_digits (encodeToBase36 36) = true /\ 10 <= 36) /\
  parseInput (encodeToBase36 1035630607911173) = Some 1035630607911173 /\
  exists u, parseInput (encodeToBase36 36) = Some u /\ u < 36.
Proof.
  split; [repeat split; solve [lia | reflexivity] |].
  split.
  - exact (proj1 (proj2 (base36_text_pasted_back 1035630607911173
                           ltac:(lia))) eq_refl).
  - exact (proj2 (proj2 (base36_text_pasted_back 36 ltac:(lia)))
             eq_refl ltac:(lia)).
Defined.

(** X20.  Pasting the displayed decimal text back: for every record the
    handler stores, decoding the decimal text of its value stores the
    same record again (the clock reading the same), the stored text
    apart, which is now the decimal text. *)
Theorem decimal_text_pasted_back (h : Host) (st : State) (r : DecodedId) :
  decodedId (decodeId h st) = Some r ->
  decodeId h (setInputId (BigInt_toString 10 (decimalValue r)) st)
  = mkState (BigInt_toString 10 (decimalValue r))
      (Some (mkDecodedId (BigInt_toString 10 (decimalValue r))
               (decimalValue r) (appId r) (clusterId r) (sequence r)
               (timestamp r) (formattedTimestamp r) (isValid r)))
      None (selectedTimezone st).
Proof.
  intros H. destruct (decodeId_record_inv h st r H)
    as (v & _ & _ & Hv & ->).
  cbn [buildResult decimalValue appId clusterId sequence timestamp
       formattedTimestamp isValid].
  destruct (decimal_toString_roundtrip v ltac:(lia)) as [Ht Hval].
  assert (Htrim : trim (BigInt_toString 10 v) = BigInt_toString 10 v).
  { apply trim_fixed.
    apply (forallb_impl is_digit); [| now apply test_digits_forallb].
    intros c Hc. apply is_upper36_not_whitespace.
    now apply is_digit_upper36. }
  rewrite (decodeId_decoded h _ v).
  - unfold buildResult. cbn [setInputId inputId selectedTimezone].
    rewrite Htrim. reflexivity.
  - cbn [setInputId inputId]. rewrite Htrim. intros E.
    rewrite E in Ht. discriminate Ht.
  - cbn [setInputId inputId]. rewrite Htrim.
    unfold parseInput. rewrite Ht, Hval. reflexivity.
  - exact Hv.
Qed.

Lemma decimal_text_pasted_back_witness :
  decodedId (decodeId (mkHost 1700000000000 (fun _ _ => js "-"))
               (mkState (js " a73m4srdhh ") None None japan))
  = Some (buildResult (mkHost 1700000000000 (fun _ _ => js "-"))
            (mkState (js " a73m4srdhh ") None None japan)
            1035630607911173) /\
  option_map decimalValue
    (decodedId
       (decodeId (mkHost 1700000000000 (fun _ _ => js "-"))
          (setInputId (BigInt_toString 10 1035630607911173)
             (mkState (js " a73m4srdhh ") None None japan))))
  = Some 1035630607911173.
Proof.
  split; [reflexivity |].
  pose proof (decimal_text_pasted_back
                (mkHost 1700000000000 (fun _ _ => js "-"))
                (mkState (js " a73m4srdhh ") None None japan)
                (buildResult (mkHost 1700000000000 (fun _ _ => js "-"))
                   (mkState (js " a73m4srdhh ") None None japan)
                   1035630607911173)
                eq_refl) as H.
  cbn [buildResult decimalValue] in H. rewrite H. reflexivity.
Defined.

(* ================================================================== *)
(** ** The days since the epoch offset *)
(* ================================================================== *)

Section Days.

(** Below 2^51 the rounding of the quotient never reaches the next
    integer: the floor of the rounded quotient is the integer
    quotient. *)
Lemma floor_quotient_rounded (a b : Z) :
  0 < a < 2 ^ 51 -> 0 < b ->
  floor_scaled (quotient_rounded a b) = a / b.
Proof.
  intros Ha Hb. unfold quotient_rounded, floor_scaled.
  set (k0 := Z.log2 a - Z.log2 b).
  set (k := if a * 2 ^ Z.max 0 (- k0) <? b * 2 ^ Z.max 0 k0
            then k0 - 1 else k0).
  assert (Hk : k <= k0) by (subst k; destruct (_ <? _); lia).
  assert (Hla : Z.log2 a < 51) by (apply Z.log2_lt_pow2; lia).
  pose proof (Z.log2_nonneg b) as Hlb.
  pose proof (Z.log2_spec b Hb) as [_ Hbhi].
  set (e := k - 52).
  assert (He : e < 0) by (subst e k0; lia).
  rewrite (Z.max_l 0 e), (Z.max_r 0 (- e)) by lia.
  change (2 ^ 0) with 1. rewrite Z.mul_1_r.
  destruct (Z.leb_spec 0 e) as [Habs | _]; [lia |].
  set (P := 2 ^ (- e)).
  assert (HP : b < P).
  { assert (Hpow : 2 ^ (Z.log2 b + 2) <= P)
      by (subst P; apply Z.pow_le_mono_r; subst e k0; lia).
    rewrite Z.pow_add_r in Hpow by lia.
    rewrite Z.pow_succ_r in Hbhi by lia.
    change (2 ^ 2) with 4 in Hpow. lia. }
  set (q := a * P / b). set (r := (a * P) mod b).
  set (m := if 2 * r <? b then q
            else if b <? 2 * r then q + 1
            else if Z.even q then q else q + 1).
  assert (Hm : q <= m <= q + 1).
  { subst m. destruct (2 * r <? b); [lia |].
    destruct (b <? 2 * r); [lia |]. destruct (Z.even q); lia. }
  pose proof (Z.div_mod a b ltac:(lia)) as Hdiv.
  pose proof (Z.mod_pos_bound a b Hb) as Hrem.
  assert (Hlow : a / b * P <= q).
  { subst q. apply Z.div_le_lower_bound; [lia | nia]. }
  assert (Hhigh : q < (a / b + 1) * P - 1).
  { subst q. apply Z.div_lt_upper_bound; [lia | nia]. }
  symmetry. apply (Z.div_unique m P (a / b) (m - P * (a / b))); [| lia].
  left. nia.
Qed.

End Days.

(** X21.  For every record the handler stores, the days shown since the
    epoch offset are the time stamp delta divided by 86400000, rounded
    down: the division of Numbers, rounded to a double before the
    floor, loses nothing here.  The days are between 0 and 12725. *)
Theorem days_since_epoch_exact (h : Host) (st : State) (r : DecodedId) :
  decodedId (decodeId h st) = Some r ->
  daysSinceEpoch r = Finite (decimalValue r / 2 ^ 23 / 86400000) /\
  0 <= decimalValue r / 2 ^ 23 / 86400000 <= 12725.
Proof.
  intros H. destruct (decodeId_record_inv h st r H)
    as (v & _ & _ & Hv & ->).
  pose proof (timestampDelta_range v Hv) as Hd.
  unfold daysSinceEpoch. cbn [buildResult timestamp decimalValue].
  rewrite (getTimestamp_exact v Hv), timestamp_minus_offset by assumption.
  change (1000 * 60 * 60 * 24) with 86400000.
  split.
  - unfold floor_quotient.
    destruct (Z.eqb_spec (v / 2 ^ 23) 0) as [E | E].
    + rewrite E. reflexivity.
    + destruct (Z.ltb_spec 0 (v / 2 ^ 23)); [| lia].
      rewrite floor_quotient_rounded by lia. reflexivity.
  - split; [apply Z.div_pos; lia |].
    assert (v / 2 ^ 23 / 86400000 < 12726); [| lia].
    apply Z.div_lt_upper_bound; lia.
Qed.

Lemma days_since_epoch_exact_witness :
  decodedId (decodeId (mkHost 1700000000000 (fun _ _ => js "-"))
               (mkState (js "1035630607911173") None None japan))
  = Some (buildResult (mkHost 1700000000000 (fun _ _ => js "-"))
            (mkState (js "1035630607911173") None None japan)
            1035630607911173) /\
  daysSinceEpoch
    (buildResult (mkHost 1700000000000 (fun _ _ => js "-"))
       (mkState (js "1035630607911173") None None japan)
       1035630607911173)
  = Finite 1.
Proof.
  split; [reflexivity |].
  exact (proj1 (days_since_epoch_exact
                  (mkHost 1700000000000 (fun _ _ => js "-"))
                  (mkState (js "1035630607911173") None None japan)
                  (buildResult (mkHost 1700000000000 (fun _ _ => js "-"))
                     (mkState (js "1035630607911173") None None japan)
                     1035630607911173)
                  eq_refl)).
Defined.

(* ================================================================== *)
(** ** Digit strings beyond the engine *)
(* ================================================================== *)

Section EngineBound.

Lemma nines_fold (n : nat) (acc : Z) :
  fold_left (fun a c => a * 10 + (c - 48)) (repeat 57 n) acc
  = (acc + 1) * 10 ^ Z.of_nat n - 1.
Proof.
  revert acc. induction n as [| n IH]; intros acc.
  - change (Z.of_nat 0) with 0. rewrite Z.pow_0_r.
    change (repeat 57 0) with (@nil Z). cbn [fold_left]. ring.
  - change (repeat 57 (S n)) with (57 :: repeat 57 n). cbn [fold_left].
    rewrite IH, Nat2Z.inj_succ, Z.pow_succ_r by apply Nat2Z.is_nonneg.
    ring.
Qed.

Lemma nines_are_digits (n : nat) : forallb is_digit (repeat 57 n) = true.
Proof. induction n as [| n IH]; [reflexivity | exact IH]. Qed.

Lemma nines_are_not_whitespace (n : nat) :
  forallb (fun c => negb (is_whitespace c)) (repeat 57 n) = true.
Proof. induction n as [| n IH]; [reflexivity | exact IH]. Qed.

(** 10^28 is above 2^93: [28 k + 1] decimal digits of 9 make a number of
    more than [93 k] bits. *)
Lemma power_of_ten_above (n k m : Z) :
  0 <= k -> 28 * k + 1 <= n -> 0 <= m <= 93 * k ->
  2 ^ m <= 10 ^ n - 1.
Proof.
  intros Hk Hn Hm.
  assert (H1 : 2 ^ m <= 2 ^ (93 * k)) by (apply Z.pow_le_mono_r; lia).
  assert (H2 : (2 ^ 93) ^ k <= (10 ^ 28) ^ k)
    by (apply Z.pow_le_mono_l; lia).
  rewrite <- !Z.pow_mul_r in H2 by lia.
  assert (H3 : 10 * 10 ^ (28 * k) <= 10 ^ n).
  { rewrite <- Z.pow_succ_r by lia. apply Z.pow_le_mono_r; lia. }
  assert (H4 : 0 < 2 ^ (93 * k)) by (apply Z.pow_pos_nonneg; lia).
  generalize dependent (2 ^ m). generalize dependent (2 ^ (93 * k)).
  generalize dependent (10 ^ (28 * k)). generalize dependent (10 ^ n).
  intros. lia.
Qed.

Lemma refuses_above (m v : Z) :
  0 <= m -> 2 ^ m <= v -> (m <=? Z.log2 v) = true.
Proof.
  intros Hm Hv. apply Z.leb_le.
  assert (Hpos : 0 < 2 ^ m) by (apply Z.pow_pos_nonneg; lia).
  apply (proj1 (Z.log2_le_pow2 v m (Z.lt_le_trans _ _ _ Hpos Hv))).
  exact Hv.
Qed.

Lemma above_two_to_64 (m v : Z) :
  64 <= m -> 2 ^ m <= v -> (2 ^ 64 <=? v) = true.
Proof.
  intros Hm Hv. apply Z.leb_le.
  apply (Z.le_trans _ (2 ^ m)); [| exact Hv].
  apply Z.pow_le_mono_r; lia.
Qed.

End EngineBound.

(** X22.  On a host whose engine holds BigInts of up to 2^30 bits, an
    input of 330,000,000 nines or more is a digit string on which
    [BigInt(text)] throws: the handler leaves the message of its [catch]
    arm and no record, not the range error. *)
Theorem long_digit_text_reaches_catch
  (n : nat) (now : Z) (format : number -> timezone -> jsstring)
  (d : option DecodedId) (e : option jsstring) (tz : timezone) :
  330000000 <= Z.of_nat n ->
  parseThrows (mkHost now format) (repeat 57 n) = true /\
  decodeId (mkHost now format) (mkState (repeat 57 n) d e tz)
  = mkState (repeat 57 n) None (Some MSG_FAILED) tz.
Proof.
  intros Hn.
  assert (Hbig : 2 ^ 2 ^ 30 <= 10 ^ Z.of_nat n - 1).
  { apply (power_of_ten_above (Z.of_nat n) 11785714 (2 ^ 30)); [lia | |].
    - clear - Hn. lia.
    - split; [apply Z.pow_nonneg; lia | apply Z.leb_le; reflexivity]. }
  assert (Hval : BigInt_of_string (repeat 57 n) = 10 ^ Z.of_nat n - 1).
  { unfold BigInt_of_string. rewrite nines_fold. ring. }
  assert (Hth : parseThrows (mkHost now format) (repeat 57 n) = true).
  { unfold parseThrows, BigInt_throws, mkHost.
    cbn [BigInt_refuses]. rewrite Hval.
    apply andb_true_iff. split; [| apply andb_true_iff; split].
    - destruct n as [| n']; [exfalso; clear - Hn; cbn in Hn; lia |].
      exact (nines_are_digits (S n')).
    - apply (above_two_to_64 (2 ^ 30)); [| exact Hbig].
      apply Z.leb_le; reflexivity.
    - apply (refuses_above (2 ^ 30)); [| exact Hbig].
      apply Z.leb_le; reflexivity. }
  split; [exact Hth |].
  assert (Htrim : trim (repeat 57 n) = repeat 57 n)
    by (apply trim_fixed, nines_are_not_whitespace).
  rewrite (decodeId_thrown (mkHost now format)
             (mkState (repeat 57 n) d e tz)).
  - reflexivity.
  - cbn [inputId]. rewrite Htrim.
    destruct n as [| n']; [exfalso; clear - Hn; cbn in Hn; lia |].
    discriminate.
  - cbn [inputId]. rewrite Htrim. exact Hth.
Qed.

Lemma long_digit_text_reaches_catch_witness :
  330000000 <= Z.of_nat (N.to_nat 330000000) /\
  decodeId (mkHost 1700000000000 (fun _ _ => js "-"))
    (mkState (repeat 57 (N.to_nat 330000000)) None None japan)
  = mkState (repeat 57 (N.to_nat 330000000)) None (Some MSG_FAILED) japan.
Proof.
  assert (H : 330000000 <= Z.of_nat (N.to_nat 330000000))
    by (rewrite N_nat_Z; apply Z.leb_le; reflexivity).
  split; [exact H |].
  exact (proj2 (long_digit_text_reaches_catch (N.to_nat 330000000)
                  1700000000000 (fun _ _ => js "-") None None japan H)).
Defined.
